(** * datalad_core.commands.dataset: the [Dataset] parameter type and the
      [EnsureDataset] constraint

    A shallow embedding of [src/datalad_core/commands/dataset.py].

    The three lazy properties of [Dataset] ([path], [repo], [worktree])
    mutate the private attributes of the object and probe the file system
    through the constructors of [Repo] and [Worktree].  They are embedded as
    computations of a state-and-exception monad whose state is the object
    itself plus the log of the calls made to the outside world; the outside
    world (working directory, what the constructors answer, what the
    configuration holds) is a record passed to every access, so that two
    accesses can be run against two different states of the file system. *)

From Stdlib Require Import String Ascii List Bool.
Import ListNotations.
Open Scope string_scope.

Set Implicit Arguments.

(** ** Paths

    [pathlib.Path] on a POSIX platform: a root (empty, one slash, or exactly
    two slashes) and the list of the components, with empty components and
    single dots dropped by the parser. *)

Record Path : Type := mkPath { path_root : string; path_parts : list string }.

Fixpoint split_sep (sep : ascii) (s : string) (cur : string) : list string :=
  match s with
  | EmptyString => [cur]
  | String c rest =>
      if Ascii.eqb c sep then cur :: split_sep sep rest ""
      else split_sep sep rest (cur ++ String c "")
  end.

Definition slash : ascii := "/"%char.

Definition splitroot (s : string) : string :=
  match s with
  | String c1 (String c2 (String c3 _)) =>
      if Ascii.eqb c1 slash then
        if Ascii.eqb c2 slash then
          if Ascii.eqb c3 slash then "/" else "//"
        else "/"
      else ""
  | String c1 (String c2 EmptyString) =>
      if Ascii.eqb c1 slash then
        if Ascii.eqb c2 slash then "//" else "/"
      else ""
  | String c1 EmptyString => if Ascii.eqb c1 slash then "/" else ""
  | EmptyString => ""
  end.

Definition keep_part (x : string) : bool :=
  negb (String.eqb x "") && negb (String.eqb x ".").

(** [Path(s)] for a [str] argument. *)
Definition Path_of_str (s : string) : Path :=
  mkPath (splitroot s) (filter keep_part (split_sep slash s "")).

Arguments Path_of_str : simpl never.

Definition is_absolute (p : Path) : bool := negb (String.eqb (path_root p) "").

Definition Path_eqb (p q : Path) : bool :=
  String.eqb (path_root p) (path_root q)
  && (if list_eq_dec string_dec (path_parts p) (path_parts q) then true else false).

(** ** Handles of the repository layer

    [datalad_core.repo.Repo] and [datalad_core.repo.Worktree] are imported by
    the module; of their instances the module reads [Repo.path],
    [Worktree.path], [Worktree.repo] and the configuration. *)

Record Repo : Type := mkRepo { repo_path : Path }.

Record Worktree : Type := mkWorktree { wt_path : Path; wt_repo : Repo }.

(** What [ds.worktree or ds.repo] evaluates to when it is not [None]. *)
Inductive GitManaged : Type :=
| GMWorktree (w : Worktree)
| GMRepo (r : Repo).

(** ** Python values handed to [Dataset(...)] and [EnsureDataset.__call__]

    [VOther ty] stands for an object of any other class [ty] that is neither
    a [str] nor an [os.PathLike] (an [int], a [list], ...). *)

Inductive value : Type :=
| VNone
| VStr (s : string)
| VPath (p : Path)
| VRepo (r : Repo)
| VWorktree (w : Worktree)
| VOther (ty : string).

(** [type(value)], by the name of the class. *)
Definition type_of (v : value) : string :=
  match v with
  | VNone => "NoneType"
  | VStr _ => "str"
  | VPath _ => "PosixPath"
  | VRepo _ => "Repo"
  | VWorktree _ => "Worktree"
  | VOther ty => ty
  end.

(** ** The [Dataset] object: [__init__] stores the spec and three [None]s. *)

Record Dataset : Type := mkDataset {
  _spec : value;
  _repo : option Repo;
  _worktree : option Worktree;
  _path : option Path
}.

Definition Dataset_init (spec : value) : Dataset :=
  mkDataset spec None None None.

Definition pristine_spec (self : Dataset) : value := _spec self.

Definition set_repo (r : option Repo) (self : Dataset) : Dataset :=
  mkDataset (_spec self) r (_worktree self) (_path self).

Definition set_worktree (w : option Worktree) (self : Dataset) : Dataset :=
  mkDataset (_spec self) (_repo self) w (_path self).

Definition set_path (p : option Path) (self : Dataset) : Dataset :=
  mkDataset (_spec self) (_repo self) (_worktree self) p.

(** ** Exceptions

    [exn] are the exceptions the properties of [Dataset] can raise or let
    through; [OtherError cls] is an exception of a class that is neither a
    [ValueError] nor a [TypeError] (nor a subclass of one of them).

    [raised] is what leaves [EnsureDataset.__call__]: an exception passed
    through, or what [Constraint.raise_for] raises.  [ConstraintError] is
    [raise_for(value, msg)], carrying the offending value and the message
    template; [ConstraintErrorCtx] is [raise_for(value, msg, type=...,
    __caused_by__=...)], carrying the two context fields as well. *)

Inductive exn : Type :=
| ValueError (msg : string)
| TypeError (msg : string)
| OtherError (cls : string).

Inductive subject : Type :=
| SValue (v : value)
| SDataset (ds : Dataset).

Inductive raised : Type :=
| Exn (e : exn)
| ConstraintError (subj : subject) (msg : string)
| ConstraintErrorCtx (subj : subject) (msg : string)
                     (ctx_type : string) (ctx_caused_by : exn).

(** ** The outside world

    What the process and the file system answer at one moment: the working
    directory, the outcome of [Worktree(path)] and [Repo(path)] (a handle, or
    the exception the constructor raises), and the keys held by a named
    configuration source of a handle ([h.config.sources[name]]). *)

Record World : Type := mkWorld {
  cwd : Path;
  Worktree_new : Path -> exn + Worktree;
  Repo_new : Path -> exn + Repo;
  config_source : GitManaged -> string -> list string
}.

(** The calls that leave the module. *)
Inductive call : Type :=
| CallCwd
| CallWorktree (p : Path)
| CallRepo (p : Path)
| CallConfig (h : GitManaged) (source : string).

(** ** The monad: the object, the log of outside calls, and exceptions *)

Record St : Type := mkSt { obj : Dataset; log : list call }.

Definition M (E A : Type) : Type := St -> (E + A) * St.

Definition ret {E A} (a : A) : M E A := fun st => (inr a, st).

Definition raise {E A} (e : E) : M E A := fun st => (inl e, st).

Definition bind {E A B} (m : M E A) (k : A -> M E B) : M E B :=
  fun st =>
    match m st with
    | (inr a, st') => k a st'
    | (inl e, st') => (inl e, st')
    end.

Definition get_self {E} : M E Dataset := fun st => (inr (obj st), st).

Definition modify_self {E} (f : Dataset -> Dataset) : M E unit :=
  fun st => (inr tt, mkSt (f (obj st)) (log st)).

Definition emit {E} (c : call) : M E unit :=
  fun st => (inr tt, mkSt (obj st) (log st ++ [c])).

(** An exception of a property, passing through [__call__] unhandled. *)
Definition lift {A} (m : M exn A) : M raised A :=
  fun st =>
    match m st with
    | (inr a, st') => (inr a, st')
    | (inl e, st') => (inl (Exn e), st')
    end.

Declare Scope py_scope.
Delimit Scope py_scope with py.
Notation "x <- m ;; k" := (bind m (fun x => k))
  (at level 100, m at next level, right associativity) : py_scope.
Notation "m ;; k" := (bind m (fun _ => k))
  (at level 100, right associativity) : py_scope.
Open Scope py_scope.

(** Running a computation on an object, with an empty log. *)
Definition run {E A} (m : M E A) (self : Dataset) : (E + A) * St :=
  m (mkSt self []).

(** ** [get_gitmanaged_from_pathlike(cls, path)]

    [cls] is [Repo] or [Worktree]; [path] is a [Path] or a [str].  Only the
    [ValueError] of the constructor means that nothing of the class is there;
    any other exception passes through. *)

Inductive pathlike : Type :=
| PLPath (p : Path)
| PLStr (s : string).

Definition get_gitmanaged_from_pathlike {H : Type}
    (cls_call : Path -> call) (cls : Path -> exn + H) (path : pathlike)
  : M exn (option H) :=
  let path := match path with
              | PLPath p => p
              | PLStr s => Path_of_str s
              end in
  emit (cls_call path) ;;
  match cls path with
  | inr h => ret (Some h)
  | inl (ValueError _) => ret None
  | inl e => raise e
  end.

(** Truth value of [x] for an [x] that is [None] or an instance of [Repo] or
    [Worktree] (instances of these classes are true). *)
Definition truthy {A} (x : option A) : bool :=
  match x with Some _ => true | None => false end.

(** [x.attr] where [x] may be [None]. *)
Definition getattr {E A B} (err : E) (x : option A) (attr : A -> B) : M E B :=
  match x with
  | Some a => ret (attr a)
  | None => raise err
  end.

Definition AttributeError : exn := OtherError "AttributeError".

(** [Path(ps)]: a [str] is parsed, a [Path] is taken over, anything else is
    refused with a [TypeError]. *)
Definition Path_new (ps : value) : exn + Path :=
  match ps with
  | VPath p => inr p
  | VStr s => inr (Path_of_str s)
  | _ => inl (TypeError ("expected str, bytes or os.PathLike object, not "
                          ++ type_of ps))
  end.

(** ** The properties of [Dataset] *)

Section Properties.

Variable W : World.

(** [Dataset.worktree] *)
Definition worktree : M exn (option Worktree) :=
  self <- get_self ;;
  match _worktree self with
  | None =>
      let ps := pristine_spec self in
      match ps with
      | VWorktree w => modify_self (set_worktree (Some w))
      | VPath p =>
          r <- get_gitmanaged_from_pathlike CallWorktree (Worktree_new W)
                 (PLPath p) ;;
          modify_self (set_worktree r)
      | VStr s =>
          r <- get_gitmanaged_from_pathlike CallWorktree (Worktree_new W)
                 (PLStr s) ;;
          modify_self (set_worktree r)
      | _ => ret tt
      end
  | Some _ => ret tt
  end ;;
  self <- get_self ;;
  ret (_worktree self).

(** [Dataset.repo] *)
Definition repo : M exn (option Repo) :=
  self <- get_self ;;
  let ps := pristine_spec self in
  match _repo self with
  | Some r => ret (Some r)
  | None =>
      w <- worktree ;;
      match w with
      | Some _ =>
          w' <- worktree ;;
          r <- getattr AttributeError w' wt_repo ;;
          modify_self (set_repo (Some r))
      | None =>
          match ps with
          | VRepo r => modify_self (set_repo (Some r))
          | VPath p =>
              r <- get_gitmanaged_from_pathlike CallRepo (Repo_new W)
                     (PLPath p) ;;
              modify_self (set_repo r)
          | VStr s =>
              r <- get_gitmanaged_from_pathlike CallRepo (Repo_new W)
                     (PLStr s) ;;
              modify_self (set_repo r)
          | _ => ret tt
          end
      end ;;
      self <- get_self ;;
      ret (_repo self)
  end.

(** [Dataset.path] *)
Definition path : M exn Path :=
  self <- get_self ;;
  match _path self with
  | Some p => ret p
  | None =>
      match _spec self with
      | VNone =>
          emit CallCwd ;;
          modify_self (set_path (Some (cwd W))) ;;
          ret (cwd W)
      | _ =>
          p <- (w <- worktree ;;
                if truthy w then
                  w' <- worktree ;;
                  p <- getattr AttributeError w' wt_path ;;
                  ret (Some p)
                else
                  r <- repo ;;
                  if truthy r then
                    r' <- repo ;;
                    p <- getattr AttributeError r' repo_path ;;
                    ret (Some p)
                  else ret None) ;;
          modify_self (set_path p) ;;
          match p with
          | Some p => ret p
          | None =>
              self <- get_self ;;
              let ps := pristine_spec self in
              match ps with
              | VPath p =>
                  modify_self (set_path (Some p)) ;;
                  ret p
              | _ =>
                  match Path_new ps with
                  | inr p =>
                      modify_self (set_path (Some p)) ;;
                      ret p
                  | inl e => raise e
                  end
              end
          end
      end
  end.

End Properties.

(** ** The [EnsureDataset] constraint *)

(** The [installed] argument: [bool | str | None]. *)
Inductive installed_t : Type :=
| InstNone
| InstBool (b : bool)
| InstStr (s : string).

Record EnsureDataset : Type := mkEnsureDataset { _installed : installed_t }.

(** [if installed] *)
Definition inst_truthy (i : installed_t) : bool :=
  match i with
  | InstNone => false
  | InstBool b => b
  | InstStr s => negb (String.eqb s "")
  end.

(** [installed is False] *)
Definition inst_is_False (i : installed_t) : bool :=
  match i with
  | InstBool false => true
  | _ => false
  end.

(** [installed != 'with-id'] *)
Definition inst_ne_with_id (i : installed_t) : bool :=
  match i with
  | InstStr s => negb (String.eqb s "with-id")
  | _ => true
  end.

(** [EnsureDataset.input_synopsis] *)
Definition input_synopsis (self : EnsureDataset) : string :=
  "(path to) "
  ++ (if inst_truthy (_installed self) then "an existing "
      else if inst_is_False (_installed self) then "a non-existing "
      else "a ")
  ++ "dataset".

(** [Constraint.raise_for]: never returns. *)
Definition raise_for {A} (subj : subject) (msg : string) : M raised A :=
  raise (ConstraintError subj msg).

Definition raise_for_ctx {A} (subj : subject) (msg : string)
    (type : string) (caused_by : exn) : M raised A :=
  raise (ConstraintErrorCtx subj msg type caused_by).

(** [except (ValueError, TypeError)] *)
Definition is_ValueError_or_TypeError (e : exn) : bool :=
  match e with
  | ValueError _ | TypeError _ => true
  | OtherError _ => false
  end.

Section Call.

Variable W : World.

(** [ds.worktree or ds.repo] *)
Definition worktree_or_repo : M exn (option GitManaged) :=
  w <- worktree W ;;
  match w with
  | Some w => ret (Some (GMWorktree w))
  | None =>
      r <- repo W ;;
      ret (option_map GMRepo r)
  end.

(** The body of [EnsureDataset.__call__] after [ds = Dataset(value)]. *)
Definition call_body (self : EnsureDataset) (value : value) : M raised Dataset :=
  (fun st =>
     match path W st with
     | (inr _, st') => (inr tt, st')
     | (inl e, st') =>
         if is_ValueError_or_TypeError e then
           raise_for_ctx (SValue value)
             "cannot create Dataset from {type}: {__caused_by__}"
             (type_of value) e st'
         else (inl (Exn e), st')
     end) ;;
  (if inst_is_False (_installed self) then
     x <- lift worktree_or_repo ;;
     if truthy x then
       ds <- get_self ;;
       raise_for (SDataset ds) "already exists locally"
     else ret tt
   else ret tt) ;;
  (if inst_truthy (_installed self) then
     x <- lift worktree_or_repo ;;
     if negb (truthy x) then
       ds <- get_self ;;
       raise_for (SDataset ds) "not installed"
     else ret tt
   else ret tt) ;;
  if inst_ne_with_id (_installed self) then get_self
  else
    to_query <- lift worktree_or_repo ;;
    match to_query with
    | None => raise (Exn AttributeError)
    | Some h =>
        emit (CallConfig h "datalad-branch") ;;
        if negb (existsb (String.eqb "datalad.dataset.id")
                   (config_source W h "datalad-branch")) then
          ds <- get_self ;;
          raise_for (SDataset ds) "does not have a datalad-id"
        else get_self
    end.

(** [EnsureDataset.__call__(value)]: the outcome, the final state of the
    [Dataset] object it built, and the calls it made. *)
Definition EnsureDataset_call (self : EnsureDataset) (value : value)
  : (raised + Dataset) * St :=
  run (call_body self value) (Dataset_init value).

End Call.

(** ** Sequences of accesses

    A caller reads the three properties in any order, each time against the
    file system as it is at that moment. *)

Inductive access : Type := APath | ARepo | AWorktree.

Inductive result : Type :=
| RPath (p : Path)
| RRepo (r : option Repo)
| RWorktree (w : option Worktree).

Definition do_access (W : World) (a : access) : M exn result :=
  match a with
  | APath => p <- path W ;; ret (RPath p)
  | ARepo => r <- repo W ;; ret (RRepo r)
  | AWorktree => w <- worktree W ;; ret (RWorktree w)
  end.

(** One access: what the caller sees, the calls made, and the object after. *)
Definition observe (W : World) (a : access) (self : Dataset)
  : ((exn + result) * list call) * Dataset :=
  let '(out, st) := run (do_access W a) self in ((out, log st), obj st).

Fixpoint accesses (l : list (World * access)) (self : Dataset)
  : list ((exn + result) * list call) * Dataset :=
  match l with
  | [] => ([], self)
  | (W, a) :: l' =>
      let '(o, self') := observe W a self in
      let '(os, self'') := accesses l' self' in
      (o :: os, self'')
  end.

(** ** Sample file systems *)

Definition not_here {H} : exn + H := inl (ValueError "not a git repository").

Definition p_ds : Path := Path_of_str "/data/ds".
Definition p_bare : Path := Path_of_str "/data/bare.git".
Definition p_new : Path := Path_of_str "/data/new".

Definition r_ds : Repo := mkRepo (Path_of_str "/data/ds/.git").
Definition w_ds : Worktree := mkWorktree p_ds r_ds.
Definition r_bare : Repo := mkRepo p_bare.

(** A checkout at [/data/ds], a bare repository at [/data/bare.git], nothing
    else; the process sits in a subdirectory of the checkout; the checkout
    carries a dataset id in its branch configuration and the bare repository
    does not. *)
Definition W_sample : World :=
  mkWorld (Path_of_str "/data/ds/sub")
    (fun p => if Path_eqb p p_ds then inr w_ds else not_here)
    (fun p => if Path_eqb p p_bare then inr r_bare else not_here)
    (fun h source =>
       match h with
       | GMWorktree _ =>
           if String.eqb source "datalad-branch"
           then ["datalad.dataset.id"; "datalad.dataset.version"] else []
       | GMRepo _ => []
       end).

(** The same, after a bare repository has been created at [/data/new]. *)
Definition W_later : World :=
  mkWorld (Path_of_str "/tmp")
    (Worktree_new W_sample)
    (fun p => if Path_eqb p p_new then inr (mkRepo p_new) else Repo_new W_sample p)
    (config_source W_sample).

(** The same, after the bare repository has been replaced by a checkout. *)
Definition w_converted : Worktree :=
  mkWorktree p_bare (mkRepo (Path_of_str "/data/bare.git/.git")).

Definition W_converted : World :=
  mkWorld (cwd W_sample)
    (fun p => if Path_eqb p p_bare then inr w_converted
              else Worktree_new W_sample p)
    (fun _ => not_here)
    (config_source W_sample).

(** A file system on which the constructor of [Worktree] breaks down. *)
Definition W_broken : World :=
  mkWorld (Path_of_str "/")
    (fun _ => inl (OtherError "PermissionError"))
    (fun _ => not_here)
    (fun _ _ => []).

(** ** Vocabulary of the statements *)

(** The words of a text, as [str.split()] gives them. *)
Definition words (s : string) : list string :=
  filter (fun w => negb (String.eqb w "")) (split_sep " "%char s "").

Definition has_word (w : string) (s : string) : bool :=
  existsb (String.eqb w) (words s).

(** The three classes of [installed] that [__call__] and [input_synopsis]
    tell apart: true values, [False], and the rest. *)
Inductive policy_class : Type := MustExist | MustNotExist | Unconstrained.

Definition policy_class_of (self : EnsureDataset) : policy_class :=
  if inst_truthy (_installed self) then MustExist
  else if inst_is_False (_installed self) then MustNotExist
  else Unconstrained.

Definition policy_class_eqb (a b : policy_class) : bool :=
  match a, b with
  | MustExist, MustExist => true
  | MustNotExist, MustNotExist => true
  | Unconstrained, Unconstrained => true
  | _, _ => false
  end.

(** The spec shapes the class declares: [str | Path | Repo | Worktree | None]. *)
Definition supported (v : value) : bool :=
  match v with
  | VOther _ => false
  | _ => true
  end.

(** The path a path or text spec stands for. *)
Definition spec_path (v : value) : option Path :=
  match v with
  | VPath p => Some p
  | VStr s => Some (Path_of_str s)
  | _ => None
  end.

(** A constructor answered: with a handle, or with the [ValueError] that
    says nothing of the kind is there. *)
Definition answered {H} (x : exn + H) : bool :=
  match x with
  | inr _ => true
  | inl (ValueError _) => true
  | inl _ => false
  end.

(** The probes that resolving a spec makes are answered: the one for a
    worktree, and the one for a repository when no worktree is found. *)
Definition probes_answered (W : World) (v : value) : bool :=
  match spec_path v with
  | None => true
  | Some p =>
      match Worktree_new W p with
      | inr _ => true
      | inl (ValueError _) => answered (Repo_new W p)
      | inl _ => false
      end
  end.

(** On a fresh [Dataset(v)], [h] is the worktree if one resolves, else the
    repository if one resolves. *)
Inductive resolves_to (W : World) (v : value) : GitManaged -> Prop :=
| resolves_worktree w st :
    run (worktree W) (Dataset_init v) = (inr (Some w), st) ->
    resolves_to W v (GMWorktree w)
| resolves_repo r st st' :
    run (worktree W) (Dataset_init v) = (inr None, st) ->
    run (repo W) (Dataset_init v) = (inr (Some r), st') ->
    resolves_to W v (GMRepo r).

(** What [get_gitmanaged_from_pathlike] makes of the constructor's answer. *)
Definition found {H} (x : exn + H) : exn + option H :=
  match x with
  | inr h => inr (Some h)
  | inl (ValueError _) => inr None
  | inl e => inl e
  end.

(** What the resolution of the worktree of a spec comes to on a given file
    system, and then that of the repository. *)
Definition worktree_of (W : World) (v : value) : exn + option Worktree :=
  match v with
  | VWorktree w => inr (Some w)
  | VPath p => found (Worktree_new W p)
  | VStr s => found (Worktree_new W (Path_of_str s))
  | _ => inr None
  end.

Definition repo_of (W : World) (v : value) : exn + option Repo :=
  match worktree_of W v with
  | inl e => inl e
  | inr (Some w) => inr (Some (wt_repo w))
  | inr None =>
      match v with
      | VRepo r => inr (Some r)
      | VPath p => found (Repo_new W p)
      | VStr s => found (Repo_new W (Path_of_str s))
      | _ => inr None
      end
  end.

(** The cached handles of an object are the ones its spec resolves to on
    the file system [W]. *)
Definition coherent (W : World) (d : Dataset) : Prop :=
  (forall w, _worktree d = Some w -> worktree_of W (_spec d) = inr (Some w))
  /\ (forall r, _repo d = Some r -> repo_of W (_spec d) = inr (Some r)).

(** The object after a series of accesses, whatever they returned. *)
Definition after (l : list (World * access)) (self : Dataset) : Dataset :=
  snd (accesses l self).

(** A computation keeps a property of the object, however it ends. *)
Definition preserves {E A} (I : Dataset -> Prop) (m : M E A) : Prop :=
  forall st, I (obj st) -> I (obj (snd (m st))).

(** The object built from the path that a text parses to, in the state of
    an object built from the text. *)
Definition as_path_spec (s : string) (d : Dataset) : Dataset :=
  mkDataset (VPath (Path_of_str s)) (_repo d) (_worktree d) (_path d).

Definition is_path_access (x : World * access) : bool :=
  match snd x with
  | APath => true
  | _ => false
  end.

(** ** Vocabulary of the further properties *)

(** Every cache of the object is unset or holds the given value. *)
Definition caches_within (d : Dataset)
    (r : option Repo) (w : option Worktree) (p : option Path) : Prop :=
  (_repo d = None \/ _repo d = r)
  /\ (_worktree d = None \/ _worktree d = w)
  /\ (_path d = None \/ _path d = p).

(** What the three properties are for a spec that is a worktree handle, and
    for one that is a repository handle. *)
Definition of_worktree_handle (w : Worktree) (a : access) : result :=
  match a with
  | APath => RPath (wt_path w)
  | ARepo => RRepo (Some (wt_repo w))
  | AWorktree => RWorktree (Some w)
  end.

Definition of_repo_handle (r : Repo) (a : access) : result :=
  match a with
  | APath => RPath (repo_path r)
  | ARepo => RRepo (Some r)
  | AWorktree => RWorktree None
  end.

Definition is_ValueError (e : exn) : bool :=
  match e with
  | ValueError _ => true
  | _ => false
  end.

(** The exception is one that a constructor of the repository layer raised
    on this file system. *)
Definition raised_by_constructor (W : World) (e : exn) : Prop :=
  exists p, Worktree_new W p = inl e \/ Repo_new W p = inl e.

Definition is_config_call (c : call) : bool :=
  match c with
  | CallConfig _ _ => true
  | _ => false
  end.

Definition is_repo_call (c : call) : bool :=
  match c with
  | CallRepo _ => true
  | _ => false
  end.

(** The sample file system after a checkout has been created at
    [/data/new]. *)
Definition w_new : Worktree :=
  mkWorktree p_new (mkRepo (Path_of_str "/data/new/.git")).

Definition W_created : World :=
  mkWorld (cwd W_sample)
    (fun p => if Path_eqb p p_new then inr w_new else Worktree_new W_sample p)
    (Repo_new W_sample)
    (config_source W_sample).

(** What the resolution of the path of a spec comes to on a given file
    system, and the three properties together. *)
Definition path_of (W : World) (v : value) : exn + Path :=
  match v with
  | VNone => inr (cwd W)
  | _ =>
      match worktree_of W v with
      | inl e => inl e
      | inr (Some w) => inr (wt_path w)
      | inr None =>
          match repo_of W v with
          | inl e => inl e
          | inr (Some r) => inr (repo_path r)
          | inr None => Path_new v
          end
      end
  end.

Definition resolution (W : World) (v : value) (a : access) : exn + result :=
  match a with
  | APath =>
      match path_of W v with inl e => inl e | inr p => inr (RPath p) end
  | ARepo =>
      match repo_of W v with inl e => inl e | inr r => inr (RRepo r) end
  | AWorktree =>
      match worktree_of W v with inl e => inl e | inr w => inr (RWorktree w) end
  end.

(** The object is one built from [v] whose caches hold what [v] resolves to
    on the file system [W]. *)
Definition resolved_on (W : World) (v : value) (d : Dataset) : Prop :=
  _spec d = v
  /\ coherent W d
  /\ (forall q, _path d = Some q -> path_of W v = inr q).

Example Path_of_str_abs :
  Path_of_str "/data//ds/./sub/" = mkPath "/" ["data"; "ds"; "sub"].
Proof. reflexivity. Qed.

Example Path_of_str_rel : Path_of_str "data/new" = mkPath "" ["data"; "new"].
Proof. reflexivity. Qed.

Example Path_of_str_two_slashes : Path_of_str "//host/x" = mkPath "//" ["host"; "x"].
Proof. reflexivity. Qed.

Example path_of_checkout :
  run (path W_sample) (Dataset_init (VStr "/data/ds"))
  = (inr p_ds,
     mkSt (mkDataset (VStr "/data/ds") None (Some w_ds) (Some p_ds))
          [CallWorktree p_ds]).
Proof. reflexivity. Qed.

Example path_of_bare :
  run (path W_sample) (Dataset_init (VPath p_bare))
  = (inr p_bare,
     mkSt (mkDataset (VPath p_bare) (Some r_bare) None (Some p_bare))
          [CallWorktree p_bare; CallWorktree p_bare; CallRepo p_bare]).
Proof. reflexivity. Qed.

Example path_of_plain_directory :
  run (path W_sample) (Dataset_init (VPath p_new))
  = (inr p_new,
     mkSt (mkDataset (VPath p_new) None None (Some p_new))
          [CallWorktree p_new; CallWorktree p_new; CallRepo p_new]).
Proof. reflexivity. Qed.

Example call_with_id_on_checkout :
  fst (EnsureDataset_call W_sample (mkEnsureDataset (InstStr "with-id"))
         (VPath p_ds))
  = inr (mkDataset (VPath p_ds) None (Some w_ds) (Some p_ds)).
Proof. reflexivity. Qed.

Example call_with_id_on_bare :
  fst (EnsureDataset_call W_sample (mkEnsureDataset (InstStr "with-id"))
         (VPath p_bare))
  = inl (ConstraintError
           (SDataset (mkDataset (VPath p_bare) (Some r_bare) None (Some p_bare)))
           "does not have a datalad-id").
Proof. reflexivity. Qed.

(** * Properties *)

(** ** Synopsis *)

(** C9: the synopsis has the word "existing" exactly for the policies that
    require existence, the word "non-existing" exactly for the policy that
    forbids it, and two synopses are the same text exactly when the two
    policies are of the same class. *)
Theorem input_synopsis_by_policy_class (self other : EnsureDataset) :
  has_word "existing" (input_synopsis self) = inst_truthy (_installed self)
  /\ has_word "non-existing" (input_synopsis self)
     = inst_is_False (_installed self)
  /\ String.eqb (input_synopsis self) (input_synopsis other)
     = policy_class_eqb (policy_class_of self) (policy_class_of other).
Proof.
  destruct self as [i], other as [j].
  unfold input_synopsis, policy_class_of; simpl.
  assert (Hcls : forall k,
             (inst_truthy k = true /\ inst_is_False k = false)
             \/ (inst_truthy k = false /\ inst_is_False k = true)
             \/ (inst_truthy k = false /\ inst_is_False k = false)).
  { intros [| [|] | s]; simpl; auto.
    destruct (String.eqb s ""); simpl; auto. }
  destruct (Hcls i) as [[Hi Hi'] | [[Hi Hi'] | [Hi Hi']]];
    destruct (Hcls j) as [[Hj Hj'] | [[Hj Hj'] | [Hj Hj']]];
    rewrite ?Hi, ?Hi', ?Hj, ?Hj'; repeat split; reflexivity.
Qed.

(** As a run of characters, "existing" also occurs inside "non-existing":
    only the division into words separates the two synopses. *)
Remark synopsis_examples :
  input_synopsis (mkEnsureDataset InstNone) = "(path to) a dataset"
  /\ input_synopsis (mkEnsureDataset (InstBool true))
     = "(path to) an existing dataset"
  /\ input_synopsis (mkEnsureDataset (InstStr "with-id"))
     = "(path to) an existing dataset"
  /\ input_synopsis (mkEnsureDataset (InstBool false))
     = "(path to) a non-existing dataset"
  /\ input_synopsis (mkEnsureDataset (InstStr ""))
     = "(path to) a dataset".
Proof. repeat split. Qed.

(** ** The properties, one access at a time *)

Ltac unfold_py :=
  unfold EnsureDataset_call, call_body, observe, do_access, run,
    worktree_or_repo, lift, path, repo, worktree,
    get_gitmanaged_from_pathlike, getattr, raise_for, raise_for_ctx,
    bind, ret, raise, get_self, modify_self, emit, pristine_spec,
    set_path, set_repo, set_worktree, Dataset_init in *.

(** Split on what a constructor of the repository layer answers. *)
Ltac probe :=
  match goal with
  | |- context [Worktree_new ?W ?p] =>
      let E := fresh "Ewt" in
      destruct (Worktree_new W p) as [[? | ? | ?] | ?] eqn:E
  | |- context [Repo_new ?W ?p] =>
      let E := fresh "Erepo" in
      destruct (Repo_new W p) as [[? | ? | ?] | ?] eqn:E
  end; cbn.

Lemma repo_cached W d r l :
  _repo d = Some r ->
  repo W (mkSt d l) = (inr (Some r), mkSt d l).
Proof.
  destruct d as [v r0 w p]; cbn; intros ->; reflexivity.
Qed.

Ltac give_log l := first [ exists l; reflexivity | eexists; reflexivity ].

(** An access of [worktree]: the cached handle, or else the resolution of
    the spec, stored when it does not raise. *)
Lemma worktree_eq W d l :
  exists l',
    worktree W (mkSt d l)
    = match _worktree d with
      | Some w => (inr (Some w), mkSt d l)
      | None =>
          match worktree_of W (_spec d) with
          | inr o => (inr o, mkSt (set_worktree o d) l')
          | inl e => (inl e, mkSt d l')
          end
      end.
Proof.
  destruct d as [v r [w |] p]; unfold_py; cbn.
  - give_log l.
  - destruct v; cbn; try give_log l; probe; give_log l.
Qed.

(** An access of [repo], likewise. *)
Lemma repo_eq W d l :
  exists l',
    repo W (mkSt d l)
    = match _repo d with
      | Some r => (inr (Some r), mkSt d l)
      | None =>
          match _worktree d with
          | Some w => (inr (Some (wt_repo w)),
                       mkSt (set_repo (Some (wt_repo w)) d) l)
          | None =>
              match worktree_of W (_spec d), repo_of W (_spec d) with
              | inl e, _ => (inl e, mkSt d l')
              | inr o, inr o' =>
                  (inr o', mkSt (set_repo o' (set_worktree o d)) l')
              | inr o, inl e => (inl e, mkSt (set_worktree o d) l')
              end
          end
      end.
Proof.
  destruct d as [v [r |] [w |] p]; unfold_py; unfold repo_of; cbn;
    try give_log l.
  destruct v; cbn; try give_log l;
    probe; try give_log l; probe; give_log l.
Qed.

(** ** Properties of the object kept by every access *)

Section Preservation.

Context {E : Type} (I : Dataset -> Prop).

Lemma preserves_ret A (a : A) : preserves I (@ret E A a).
Proof. intros st H; exact H. Qed.

Lemma preserves_raise A (e : E) : preserves I (@raise E A e).
Proof. intros st H; exact H. Qed.

Lemma preserves_get_self : preserves I (@get_self E).
Proof. intros st H; exact H. Qed.

Lemma preserves_emit c : preserves I (@emit E c).
Proof. intros st H; exact H. Qed.

Lemma preserves_modify_self f :
  (forall d, I d -> I (f d)) -> preserves I (@modify_self E f).
Proof. intros Hf st H; cbn; auto. Qed.

Lemma preserves_bind A B (m : M E A) (k : A -> M E B) :
  preserves I m -> (forall a, preserves I (k a)) -> preserves I (bind m k).
Proof.
  intros Hm Hk st H; unfold bind.
  specialize (Hm st H).
  destruct (m st) as [[e | a] st']; cbn in *; [ exact Hm | ].
  apply Hk; exact Hm.
Qed.

Lemma preserves_getattr A B (err : E) (x : option A) (attr : A -> B) :
  preserves I (getattr err x attr).
Proof. destruct x; [ apply preserves_ret | apply preserves_raise ]. Qed.

End Preservation.

Lemma preserves_get_gitmanaged I H (c : Path -> call) (cls : Path -> exn + H) pl :
  preserves I (get_gitmanaged_from_pathlike c cls pl).
Proof.
  unfold get_gitmanaged_from_pathlike.
  apply preserves_bind; [ apply preserves_emit | intros _ ].
  destruct (cls _) as [[? | ? | ?] | ?];
    first [ apply preserves_ret | apply preserves_raise ].
Qed.

(** Break a computation down along its binds and its case distinctions,
    leaving what the stores into the object have to respect. *)
Create HintDb py_keep discriminated.

Ltac preserve :=
  repeat first
    [ solve [ auto 1 with py_keep nocore ]
    | apply preserves_ret
    | apply preserves_raise
    | apply preserves_get_self
    | apply preserves_emit
    | apply preserves_getattr
    | apply preserves_get_gitmanaged
    | apply preserves_bind; [ | intros ? ]
    | match goal with
      | |- preserves _ (match ?x with _ => _ end) => destruct x
      | |- preserves _ (if ?x then _ else _) => destruct x
      | |- preserves _ (let _ := _ in _) => cbv zeta
      end ].

(** The spec of an object is never written. *)
Lemma worktree_keeps_spec W v : preserves (fun d => _spec d = v) (worktree W).
Proof.
  unfold worktree; preserve;
    apply preserves_modify_self; intros [? ? ? ?]; auto.
Qed.

#[local] Hint Resolve worktree_keeps_spec : py_keep.

Lemma repo_keeps_spec W v : preserves (fun d => _spec d = v) (repo W).
Proof.
  unfold repo; preserve;
    apply preserves_modify_self; intros [? ? ? ?]; auto.
Qed.

#[local] Hint Resolve repo_keeps_spec : py_keep.

Lemma path_keeps_spec W v : preserves (fun d => _spec d = v) (path W).
Proof.
  unfold path; preserve;
    apply preserves_modify_self; intros [? ? ? ?]; auto.
Qed.

#[local] Hint Resolve path_keeps_spec : py_keep.

(** On one file system, what an access caches is what the spec resolves
    to there. *)
Lemma worktree_coherent W : preserves (coherent W) (worktree W).
Proof.
  intros [d l] H; cbn [obj] in H.
  destruct (worktree_eq W d l) as [l' ->].
  destruct (_worktree d) as [w |] eqn:Ew; [ exact H | ].
  destruct (worktree_of W (_spec d)) as [e | o] eqn:Eo; [ exact H | ].
  destruct H as [Hw Hr], d as [v r w0 p]; cbn in *.
  split; cbn; [ intros w -> | ]; assumption.
Qed.

Lemma repo_coherent W : preserves (coherent W) (repo W).
Proof.
  intros [d l] H; cbn [obj] in H.
  destruct (repo_eq W d l) as [l' ->].
  destruct (_repo d) as [r |] eqn:Er; [ exact H | ].
  destruct (_worktree d) as [w |] eqn:Ew.
  - destruct H as [Hw Hr], d as [v r0 w0 p]; cbn in *; subst.
    split; cbn; [ assumption | ].
    intros r [= <-]. unfold repo_of. rewrite (Hw w eq_refl). reflexivity.
  - destruct (worktree_of W (_spec d)) as [e | o] eqn:Eo; [ exact H | ].
    destruct d as [v r0 w0 p]; cbn in *; subst.
    destruct (repo_of W v) as [e | o'] eqn:Eo'; cbn;
      (split; cbn; [ intros w ->; assumption | ]);
      [ discriminate | intros r ->; assumption ].
Qed.

#[local] Hint Resolve worktree_coherent repo_coherent : py_keep.

Lemma path_coherent W : preserves (coherent W) (path W).
Proof.
  unfold path; preserve;
    apply preserves_modify_self; intros [? ? ? ?] H; exact H.
Qed.

#[local] Hint Resolve path_coherent : py_keep.

Lemma access_coherent W a d :
  coherent W d -> coherent W (snd (observe W a d)).
Proof.
  intros H. unfold observe, run.
  assert (Hp : preserves (coherent W) (do_access W a)).
  { destruct a; cbn [do_access]; preserve. }
  specialize (Hp (mkSt d []) H).
  destruct (do_access W a (mkSt d [])) as [out st]; exact Hp.
Qed.

Lemma access_keeps_spec W a d : _spec (snd (observe W a d)) = _spec d.
Proof.
  unfold observe, run.
  assert (Hp : preserves (fun x => _spec x = _spec d) (do_access W a)).
  { destruct a; cbn [do_access]; preserve. }
  specialize (Hp (mkSt d []) eq_refl).
  destruct (do_access W a (mkSt d [])) as [out st]; exact Hp.
Qed.

Lemma after_cons x l d :
  after (x :: l) d = after l (snd (observe (fst x) (snd x) d)).
Proof.
  unfold after; destruct x as [W a]; cbn.
  destruct (observe W a d) as [o d']; cbn.
  destruct (accesses l d') as [os d'']; reflexivity.
Qed.

(** Any series of accesses on one file system leaves the object coherent
    with it. *)
Lemma after_coherent W (l : list access) d :
  coherent W d -> coherent W (after (map (pair W) l) d).
Proof.
  revert d; induction l as [| a l IH]; intros d H; [ exact H | ].
  cbn [map]; rewrite after_cons; cbn [fst snd].
  apply IH, access_coherent, H.
Qed.

Lemma after_keeps_spec l d : _spec (after l d) = _spec d.
Proof.
  revert d; induction l as [| [W a] l IH]; intros d; [ reflexivity | ].
  rewrite after_cons, IH; cbn [fst snd]. apply access_keeps_spec.
Qed.

Lemma init_coherent W v : coherent W (Dataset_init v).
Proof. split; cbn; discriminate. Qed.

(** ** Cross-field invariant *)

(** C3: on an object built from any spec and read any number of times, if
    [worktree] yields a worktree then [repo], read next or read instead,
    yields the repository of that worktree. *)
Theorem repo_is_repo_of_worktree (W : World) (v : value)
    (earlier : list access) (w : Worktree) (st : St) :
  run (worktree W) (after (map (pair W) earlier) (Dataset_init v))
  = (inr (Some w), st) ->
  fst (repo W st) = inr (Some (wt_repo w))
  /\ fst (run (repo W) (after (map (pair W) earlier) (Dataset_init v)))
     = inr (Some (wt_repo w)).
Proof.
  set (d := after (map (pair W) earlier) (Dataset_init v)).
  intros Hrun.
  assert (Hc : coherent W d) by apply after_coherent, init_coherent.
  unfold run in *.
  destruct (worktree_eq W d []) as [l' Heq]; rewrite Heq in Hrun; clear Heq.
  destruct Hc as [Hw Hr].
  assert (Hof : worktree_of W (_spec d) = inr (Some w)
                /\ (st = mkSt d [] \/ (_worktree d = None
                                      /\ st = mkSt (set_worktree (Some w) d) l'))).
  { destruct (_worktree d) as [w0 |] eqn:Ew.
    - injection Hrun as <- <-; split; [ apply Hw; reflexivity | left; reflexivity ].
    - destruct (worktree_of W (_spec d)) as [e | o]; [ discriminate | ].
      injection Hrun as -> <-; split; [ reflexivity | right; split; reflexivity ]. }
  destruct Hof as [Hof Hst].
  assert (Hrepo_of : repo_of W (_spec d) = inr (Some (wt_repo w)))
    by (unfold repo_of; rewrite Hof; reflexivity).
  assert (Hd : forall x lx, _spec x = _spec d -> _repo x = _repo d ->
                 (_worktree x = Some w \/ _worktree x = None) ->
                 fst (repo W (mkSt x lx)) = inr (Some (wt_repo w))).
  { intros x lx Hs Hrx Hwx.
    destruct (repo_eq W x lx) as [lx' ->].
    rewrite Hrx, Hs.
    destruct (_repo d) as [r |] eqn:Er.
    - cbn. specialize (Hr r eq_refl). congruence.
    - destruct Hwx as [-> | ->]; [ reflexivity | ].
      rewrite Hof, Hrepo_of; reflexivity. }
  split.
  - destruct Hst as [-> | [Ew ->]].
    + apply Hd; auto.
      destruct (_worktree d) as [w0 |] eqn:Ew; [ | auto ].
      left. specialize (Hw w0 eq_refl). congruence.
    + apply Hd; destruct d; cbn in *; auto.
  - apply Hd; auto.
    destruct (_worktree d) as [w0 |] eqn:Ew; [ | auto ].
    left. specialize (Hw w0 eq_refl). congruence.
Qed.

Lemma repo_is_repo_of_worktree_witness :
  run (worktree W_sample)
    (after (map (pair W_sample) [ARepo; APath]) (Dataset_init (VPath p_ds)))
  = (inr (Some w_ds),
     mkSt (mkDataset (VPath p_ds) (Some r_ds) (Some w_ds) (Some p_ds)) [])
  /\ fst (repo W_sample
            (mkSt (mkDataset (VPath p_ds) (Some r_ds) (Some w_ds) (Some p_ds)) []))
     = inr (Some r_ds).
Proof.
  split; [ reflexivity | ].
  apply (repo_is_repo_of_worktree W_sample (VPath p_ds) [ARepo; APath]
           (w := w_ds)).
  reflexivity.
Defined.

(** The invariant is one of a file system that stays as it is between the
    accesses: a repository cached while [/data/bare.git] was bare stays
    cached when a checkout has taken its place. *)
Remark stale_repo_after_change :
  fst (accesses [(W_sample, ARepo); (W_converted, AWorktree);
                 (W_converted, ARepo)]
         (Dataset_init (VPath p_bare)))
  = [(inr (RRepo (Some r_bare)), [CallWorktree p_bare; CallRepo p_bare]);
     (inr (RWorktree (Some w_converted)), [CallWorktree p_bare]);
     (inr (RRepo (Some r_bare)), [])]
  /\ wt_repo w_converted <> r_bare.
Proof. split; [ reflexivity | discriminate ]. Qed.

(** ** Caching of [repo] *)

(** C2, as the code has it: what [repo] returns is what it leaves in
    [_repo]; a repository, once returned, is returned by every later access
    on any file system, without a call to the outside and without a change
    of the object.  (A [None] is left as [None], the value that also means
    "not resolved yet".) *)
Theorem repo_cached_once_present (W : World) (d : Dataset)
    (o : option Repo) (st : St) :
  run (repo W) d = (inr o, st) ->
  _repo (obj st) = o
  /\ forall r, o = Some r ->
     forall W' l, repo W' (mkSt (obj st) l) = (inr (Some r), mkSt (obj st) l).
Proof.
  unfold run; intros Hrun.
  assert (Ho : _repo (obj st) = o).
  { destruct (repo_eq W d []) as [l' Heq]; rewrite Heq in Hrun; clear Heq.
    destruct d as [v [r |] [w |] p]; cbn in Hrun.
    - injection Hrun as <- <-; reflexivity.
    - injection Hrun as <- <-; reflexivity.
    - injection Hrun as <- <-; reflexivity.
    - destruct (worktree_of W v) as [e | ow]; [ discriminate | ].
      destruct (repo_of W v) as [e | o']; [ discriminate | ].
      injection Hrun as <- <-; reflexivity. }
  split; [ exact Ho | ].
  intros r -> W' l. apply repo_cached; exact Ho.
Qed.

Lemma repo_cached_once_present_witness :
  run (repo W_sample) (Dataset_init (VPath p_bare))
  = (inr (Some r_bare),
     mkSt (mkDataset (VPath p_bare) (Some r_bare) None None)
          [CallWorktree p_bare; CallRepo p_bare])
  /\ repo W_broken
       (mkSt (mkDataset (VPath p_bare) (Some r_bare) None None) [])
     = (inr (Some r_bare),
        mkSt (mkDataset (VPath p_bare) (Some r_bare) None None) []).
Proof.
  split; [ reflexivity | ].
  exact (proj2 (@repo_cached_once_present W_sample
                  (Dataset_init (VPath p_bare)) (Some r_bare)
                  (mkSt (mkDataset (VPath p_bare) (Some r_bare) None None)
                        [CallWorktree p_bare; CallRepo p_bare])
                  eq_refl)
               r_bare eq_refl W_broken []).
Defined.

(** C2, as stated, fails: a first access that finds nothing at
    [/data/new] leaves the object as it was; the next access probes the
    file system again, and returns something else once a repository has
    appeared there. *)
Lemma repo_none_is_resolved_again :
  run (repo W_sample) (Dataset_init (VPath p_new))
  = (inr None,
     mkSt (Dataset_init (VPath p_new)) [CallWorktree p_new; CallRepo p_new])
  /\ run (repo W_sample) (Dataset_init (VPath p_new))
     <> (inr None, mkSt (Dataset_init (VPath p_new)) [])
  /\ run (repo W_later) (Dataset_init (VPath p_new))
     = (inr (Some (mkRepo p_new)),
        mkSt (mkDataset (VPath p_new) (Some (mkRepo p_new)) None None)
             [CallWorktree p_new; CallRepo p_new]).
Proof.
  split; [ reflexivity | split; [ discriminate | reflexivity ] ].
Qed.

(** ** Validation of an absent spec *)

(** C1, on the code: with [None] for a value and a policy that requires
    existence, validation asks for the working directory, probes nothing,
    and fails with "not installed", whatever the file system holds. *)
Theorem absent_must_exist_never_searches (W : World) (self : EnsureDataset) :
  inst_truthy (_installed self) = true ->
  EnsureDataset_call W self VNone
  = (inl (ConstraintError
            (SDataset (mkDataset VNone None None (Some (cwd W))))
            "not installed"),
     mkSt (mkDataset VNone None None (Some (cwd W))) [CallCwd]).
Proof.
  destruct self as [i]; cbn [_installed]; intros Ht.
  assert (Hf : inst_is_False i = false)
    by (destruct i as [| [|] | s]; [ discriminate | | discriminate | ]; reflexivity).
  unfold EnsureDataset_call, call_body, run, bind; cbn.
  rewrite Hf, Ht; reflexivity.
Qed.

Lemma absent_must_exist_never_searches_witness :
  Worktree_new W_sample p_ds = inr w_ds
  /\ cwd W_sample = Path_of_str "/data/ds/sub"
  /\ EnsureDataset_call W_sample (mkEnsureDataset (InstBool true)) VNone
     = (inl (ConstraintError
               (SDataset (mkDataset VNone None None (Some (cwd W_sample))))
               "not installed"),
        mkSt (mkDataset VNone None None (Some (cwd W_sample))) [CallCwd]).
Proof.
  split; [ reflexivity | split; [ reflexivity | ] ].
  apply (absent_must_exist_never_searches W_sample
           (mkEnsureDataset (InstBool true))).
  reflexivity.
Defined.

(** ** Construction errors *)

(** C7: when the resolution of [path] raises a [ValueError] or a
    [TypeError], validation raises the constraint's own error on the raw
    value, with the message of a failed construction, the type of the value
    and the exception that caused it. *)
Theorem call_wraps_path_errors (W : World) (self : EnsureDataset)
    (v : value) (e : exn) (st : St) :
  run (path W) (Dataset_init v) = (inl e, st) ->
  is_ValueError_or_TypeError e = true ->
  EnsureDataset_call W self v
  = (inl (ConstraintErrorCtx (SValue v)
            "cannot create Dataset from {type}: {__caused_by__}"
            (type_of v) e),
     st).
Proof.
  unfold EnsureDataset_call, call_body, run; intros Hp He.
  unfold bind at 1. rewrite Hp, He. reflexivity.
Qed.

Lemma call_wraps_path_errors_witness :
  EnsureDataset_call W_sample (mkEnsureDataset InstNone) (VOther "int")
  = (inl (ConstraintErrorCtx (SValue (VOther "int"))
            "cannot create Dataset from {type}: {__caused_by__}"
            "int"
            (TypeError "expected str, bytes or os.PathLike object, not int")),
     mkSt (Dataset_init (VOther "int")) []).
Proof.
  apply (call_wraps_path_errors W_sample (mkEnsureDataset InstNone)
           (VOther "int")); reflexivity.
Defined.

(** ** The path of an absent spec *)

Lemma absent_unresolved_stable W a :
  a <> APath ->
  snd (observe W a (Dataset_init VNone)) = Dataset_init VNone.
Proof. destruct a; [ congruence | reflexivity | reflexivity ]. Qed.

Lemma absent_resolved_stable W a p :
  snd (observe W a (mkDataset VNone None None (Some p)))
  = mkDataset VNone None None (Some p).
Proof. destruct a; reflexivity. Qed.

Lemma absent_unresolved_after l :
  forallb (fun x => negb (is_path_access x)) l = true ->
  after l (Dataset_init VNone) = Dataset_init VNone.
Proof.
  induction l as [| [W a] l IH]; [ reflexivity | ].
  cbn [forallb]; intros [Ha Hl]%andb_prop.
  rewrite after_cons; cbn [fst snd].
  rewrite absent_unresolved_stable; [ auto | ].
  intros ->; discriminate.
Qed.

Lemma absent_resolved_after l p :
  after l (mkDataset VNone None None (Some p))
  = mkDataset VNone None None (Some p).
Proof.
  induction l as [| [W a] l IH]; [ reflexivity | ].
  rewrite after_cons; cbn [fst snd].
  rewrite absent_resolved_stable; exact IH.
Qed.

(** C8: on [Dataset(None)], whatever was read of [repo] and [worktree]
    before, the first access of [path] asks for the working directory and
    returns it; every access of [path] after that, whatever happened to the
    object and to the working directory in between, returns that same path
    and asks nothing. *)
Theorem absent_path_is_cwd_of_first_access
    (before later : list (World * access)) (W1 W2 : World) :
  forallb (fun x => negb (is_path_access x)) before = true ->
  run (path W1) (after before (Dataset_init VNone))
  = (inr (cwd W1), mkSt (mkDataset VNone None None (Some (cwd W1))) [CallCwd])
  /\ run (path W2) (after later (mkDataset VNone None None (Some (cwd W1))))
     = (inr (cwd W1), mkSt (mkDataset VNone None None (Some (cwd W1))) []).
Proof.
  intros Hb.
  rewrite (absent_unresolved_after before Hb), absent_resolved_after.
  split; reflexivity.
Qed.

Lemma absent_path_is_cwd_of_first_access_witness :
  run (path W_sample)
    (after [(W_later, ARepo); (W_broken, AWorktree)] (Dataset_init VNone))
  = (inr (Path_of_str "/data/ds/sub"),
     mkSt (mkDataset VNone None None (Some (Path_of_str "/data/ds/sub")))
          [CallCwd])
  /\ run (path W_later)
       (after [(W_broken, ARepo); (W_later, APath)]
          (mkDataset VNone None None (Some (Path_of_str "/data/ds/sub"))))
     = (inr (Path_of_str "/data/ds/sub"),
        mkSt (mkDataset VNone None None (Some (Path_of_str "/data/ds/sub"))) []).
Proof.
  apply (absent_path_is_cwd_of_first_access
           [(W_later, ARepo); (W_broken, AWorktree)]
           [(W_broken, ARepo); (W_later, APath)] W_sample W_later).
  reflexivity.
Defined.

(** ** Text specs *)

(** One access on an object built from a text, and on the object built
    from the path the text parses to, in the same state. *)
Lemma observe_as_path_spec W a s d :
  _spec d = VStr s ->
  observe W a (as_path_spec s d)
  = (fst (observe W a d), as_path_spec s (snd (observe W a d))).
Proof.
  destruct d as [v r w p]; cbn [_spec]; intros ->.
  unfold as_path_spec; cbn [_repo _worktree _path].
  destruct a, p as [p |], r as [r |], w as [w |];
    try reflexivity;
    unfold_py; cbn;
    repeat (probe; try reflexivity).
Qed.

Lemma accesses_as_path_spec s l d :
  _spec d = VStr s ->
  accesses l (as_path_spec s d)
  = (fst (accesses l d), as_path_spec s (snd (accesses l d))).
Proof.
  revert d; induction l as [| [W a] l IH]; intros d Hd; [ reflexivity | ].
  cbn [accesses].
  rewrite (@observe_as_path_spec W a s d Hd).
  assert (Hd' : _spec (snd (observe W a d)) = VStr s)
    by (rewrite access_keeps_spec; exact Hd).
  destruct (observe W a d) as [o d']; cbn [fst snd] in *.
  rewrite (IH d' Hd').
  destruct (accesses l d') as [os d'']; reflexivity.
Qed.

(** C10: for every text and every series of accesses, each on any file
    system, [Dataset(s)] and [Dataset(Path(s))] return the same values of
    [path], [repo] and [worktree] (or raise the same exception), make the
    same calls to the outside, and end with the same cached values. *)
Theorem text_spec_is_its_path (s : string) (l : list (World * access)) :
  accesses l (Dataset_init (VPath (Path_of_str s)))
  = (fst (accesses l (Dataset_init (VStr s))),
     as_path_spec s (snd (accesses l (Dataset_init (VStr s))))).
Proof.
  exact (@accesses_as_path_spec s l (Dataset_init (VStr s)) eq_refl).
Qed.

(** ** Validation against the existence policies *)

Ltac absurd_presence H :=
  exfalso;
  first [ destruct H as [(? & ? & H) | (? & ? & H)]; discriminate
        | inversion H; discriminate ].

(** C5: when the worktree or the repository of a value resolves,
    validation with [installed=False] fails with "already exists locally",
    and validation with [installed=True] returns the [Dataset] built from
    the value. *)
Theorem present_entity_policies (W : World) (v : value) :
  (exists w st, run (worktree W) (Dataset_init v) = (inr (Some w), st))
  \/ (exists r st, run (repo W) (Dataset_init v) = (inr (Some r), st)) ->
  (exists d st,
      EnsureDataset_call W (mkEnsureDataset (InstBool false)) v
      = (inl (ConstraintError (SDataset d) "already exists locally"), st)
      /\ _spec d = v)
  /\ (exists d st,
         EnsureDataset_call W (mkEnsureDataset (InstBool true)) v
         = (inr d, st)
         /\ obj st = d /\ _spec d = v).
Proof.
  intros H.
  destruct v; unfold_py; cbn in *;
    try absurd_presence H;
    repeat (probe; try absurd_presence H);
    split; do 2 eexists; repeat split.
Qed.

Lemma present_entity_policies_witness :
  (exists d st,
      EnsureDataset_call W_sample (mkEnsureDataset (InstBool false))
        (VPath p_bare)
      = (inl (ConstraintError (SDataset d) "already exists locally"), st)
      /\ _spec d = VPath p_bare)
  /\ (exists d st,
         EnsureDataset_call W_sample (mkEnsureDataset (InstBool true))
           (VPath p_bare)
         = (inr d, st)
         /\ obj st = d /\ _spec d = VPath p_bare).
Proof.
  apply (present_entity_policies W_sample (VPath p_bare)).
  right. exists r_bare.
  exists (mkSt (mkDataset (VPath p_bare) (Some r_bare) None None)
            [CallWorktree p_bare; CallRepo p_bare]).
  reflexivity.
Defined.

Ltac pair_eqs :=
  repeat match goal with
         | H : (_, _) = (_, _) |- _ => inversion H; subst; clear H
         end.

(** C6: with [installed='with-id'], once a worktree or else a repository
    resolves, validation asks that handle for its "datalad-branch"
    configuration source, as its last call; it returns the [Dataset] when
    the source holds the key "datalad.dataset.id", and fails with "does not
    have a datalad-id" when it does not. *)
Theorem with_id_queries_branch_config (W : World) (v : value) (h : GitManaged) :
  resolves_to W v h ->
  exists d st,
    _spec d = v /\ obj st = d
    /\ last (log st) CallCwd = CallConfig h "datalad-branch"
    /\ EnsureDataset_call W (mkEnsureDataset (InstStr "with-id")) v
       = (if existsb (String.eqb "datalad.dataset.id")
               (config_source W h "datalad-branch")
          then inr d
          else inl (ConstraintError (SDataset d) "does not have a datalad-id"),
          st).
Proof.
  intros [w st H | r st st' H1 H2];
    destruct v; unfold_py; cbn in *; try discriminate;
    repeat (probe; cbn in *; try discriminate); pair_eqs;
    match goal with
    | |- context [existsb ?f ?l] => destruct (existsb f l)
    end;
    do 2 eexists;
    (split; [ | split; [ | split; [ | reflexivity ] ] ]); reflexivity.
Qed.

Lemma with_id_queries_branch_config_witness :
  exists d st,
    _spec d = VStr "/data/bare.git" /\ obj st = d
    /\ last (log st) CallCwd = CallConfig (GMRepo r_bare) "datalad-branch"
    /\ EnsureDataset_call W_sample (mkEnsureDataset (InstStr "with-id"))
         (VStr "/data/bare.git")
       = (if existsb (String.eqb "datalad.dataset.id")
               (config_source W_sample (GMRepo r_bare) "datalad-branch")
          then inr d
          else inl (ConstraintError (SDataset d) "does not have a datalad-id"),
          st).
Proof.
  apply (@with_id_queries_branch_config W_sample (VStr "/data/bare.git")
           (GMRepo r_bare)).
  apply (@resolves_repo W_sample (VStr "/data/bare.git") r_bare
           (mkSt (Dataset_init (VStr "/data/bare.git")) [CallWorktree p_bare])
           (mkSt (mkDataset (VStr "/data/bare.git") (Some r_bare) None None)
                 [CallWorktree p_bare; CallRepo p_bare]));
    reflexivity.
Defined.

(** ** The path of a dataset *)

(** C4, as the code has it: for a spec of a declared shape, when the probes
    of the file system are answered, [path] returns and caches a path: the
    working directory for [None]; else the root of the worktree if one
    resolves; else the root of the repository if one resolves; else the
    path of the spec itself, as given. *)
Theorem path_resolves_or_falls_back (W : World) (v : value) :
  supported v = true ->
  probes_answered W v = true ->
  exists p st,
    run (path W) (Dataset_init v) = (inr p, st)
    /\ _path (obj st) = Some p
    /\ match v with
       | VNone => p = cwd W
       | _ =>
           match fst (run (worktree W) (Dataset_init v)) with
           | inr (Some w) => p = wt_path w
           | _ =>
               match fst (run (repo W) (Dataset_init v)) with
               | inr (Some r) => p = repo_path r
               | _ => spec_path v = Some p
               end
           end
       end.
Proof.
  intros Hs Hp.
  destruct v; try discriminate; unfold probes_answered in Hp;
    unfold_py; cbn in *;
    repeat (probe; cbn in *; try discriminate);
    do 2 eexists; (split; [ reflexivity | split; reflexivity ]).
Qed.

Lemma path_resolves_or_falls_back_witness :
  exists p st,
    run (path W_sample) (Dataset_init (VStr "data/new")) = (inr p, st)
    /\ _path (obj st) = Some p
    /\ spec_path (VStr "data/new") = Some p.
Proof.
  apply (@path_resolves_or_falls_back W_sample (VStr "data/new"));
    reflexivity.
Defined.

(** C4, as stated, fails: nothing is at [data/new], and the path of the
    dataset is that relative path. *)
Lemma path_of_relative_spec_is_relative :
  supported (VPath (Path_of_str "data/new")) = true
  /\ run (path W_sample) (Dataset_init (VPath (Path_of_str "data/new")))
     = (inr (mkPath "" ["data"; "new"]),
        mkSt (mkDataset (VPath (Path_of_str "data/new")) None None
                (Some (mkPath "" ["data"; "new"])))
             [CallWorktree (mkPath "" ["data"; "new"]);
              CallWorktree (mkPath "" ["data"; "new"]);
              CallRepo (mkPath "" ["data"; "new"])])
  /\ is_absolute (mkPath "" ["data"; "new"]) = false.
Proof. repeat split. Qed.

(** * Further properties of the module *)

(** ** What is cached stays cached *)

Lemma path_cached W d p l :
  _path d = Some p ->
  path W (mkSt d l) = (inr p, mkSt d l).
Proof.
  destruct d as [v r w p0]; cbn; intros ->; reflexivity.
Qed.

Section CacheKept.

Variable W : World.

Lemma worktree_keeps_path p :
  preserves (fun d => _path d = Some p) (worktree W).
Proof.
  intros [d l] H; cbn [obj] in H.
  destruct (worktree_eq W d l) as [l' ->].
  destruct (_worktree d); [ exact H | ].
  destruct (worktree_of W (_spec d)); [ exact H | ].
  destruct d; exact H.
Qed.

Lemma worktree_keeps_repo r :
  preserves (fun d => _repo d = Some r) (worktree W).
Proof.
  intros [d l] H; cbn [obj] in H.
  destruct (worktree_eq W d l) as [l' ->].
  destruct (_worktree d); [ exact H | ].
  destruct (worktree_of W (_spec d)); [ exact H | ].
  destruct d; exact H.
Qed.

Lemma worktree_keeps_worktree w :
  preserves (fun d => _worktree d = Some w) (worktree W).
Proof.
  intros [d l] H; cbn [obj] in H.
  destruct (worktree_eq W d l) as [l' ->].
  rewrite H; exact H.
Qed.

Lemma repo_keeps_path p :
  preserves (fun d => _path d = Some p) (repo W).
Proof.
  intros [d l] H; cbn [obj] in H.
  destruct (repo_eq W d l) as [l' ->].
  destruct d as [v [r |] [w |] p0]; cbn in *; try exact H.
  destruct (worktree_of W v); [ exact H | ].
  destruct (repo_of W v); exact H.
Qed.

Lemma repo_keeps_worktree w :
  preserves (fun d => _worktree d = Some w) (repo W).
Proof.
  intros [d l] H; cbn [obj] in H.
  destruct (repo_eq W d l) as [l' ->].
  destruct d as [v [r |] [w0 |] p0]; cbn in *; try exact H.
  discriminate.
Qed.

Lemma repo_keeps_repo r :
  preserves (fun d => _repo d = Some r) (repo W).
Proof.
  intros [d l] H; cbn [obj] in H.
  rewrite (repo_cached W d l H); exact H.
Qed.

Lemma path_keeps_path p :
  preserves (fun d => _path d = Some p) (path W).
Proof.
  intros [d l] H; cbn [obj] in H.
  rewrite (path_cached W d l H); exact H.
Qed.

#[local] Hint Resolve worktree_keeps_repo worktree_keeps_worktree
  repo_keeps_worktree repo_keeps_repo : py_keep.

Lemma path_keeps_worktree w :
  preserves (fun d => _worktree d = Some w) (path W).
Proof.
  unfold path; preserve;
    apply preserves_modify_self; intros [? ? ? ?] H; exact H.
Qed.

Lemma path_keeps_repo r :
  preserves (fun d => _repo d = Some r) (path W).
Proof.
  unfold path; preserve;
    apply preserves_modify_self; intros [? ? ? ?] H; exact H.
Qed.

End CacheKept.

Lemma preserved_by_access (I : Dataset -> Prop) W a d :
  preserves I (worktree W) -> preserves I (repo W) -> preserves I (path W) ->
  I d -> I (snd (observe W a d)).
Proof.
  intros Hw Hr Hp H. unfold observe, run.
  assert (Ha : preserves I (do_access W a)).
  { destruct a; cbn [do_access];
      (apply preserves_bind; [ assumption | intros ?; apply preserves_ret ]). }
  specialize (Ha (mkSt d []) H).
  destruct (do_access W a (mkSt d [])) as [out st]; exact Ha.
Qed.

Lemma preserved_after (I : Dataset -> Prop) l d :
  (forall W, preserves I (worktree W)) ->
  (forall W, preserves I (repo W)) ->
  (forall W, preserves I (path W)) ->
  I d -> I (after l d).
Proof.
  intros Hw Hr Hp; revert d.
  induction l as [| [W a] l IH]; intros d H; [ exact H | ].
  rewrite after_cons; cbn [fst snd].
  apply IH, preserved_by_access; auto.
Qed.

(** What a successful access returns is what it leaves in the cache. *)
Lemma path_returns W st0 q st1 :
  path W st0 = (inr q, st1) -> _path (obj st1) = Some q.
Proof.
  destruct st0 as [[v r w p0] l]; revert q st1.
  destruct p0 as [p0 |], v, r as [r |], w as [w |];
    intros q st1; unfold_py; cbn;
    repeat (probe; cbn);
    intros H; inversion H; subst; reflexivity.
Qed.

Lemma worktree_returns W st0 o st :
  worktree W st0 = (inr o, st) -> _worktree (obj st) = o.
Proof.
  destruct st0 as [d l]. destruct (worktree_eq W d l) as [l' ->].
  destruct (_worktree d) as [w |] eqn:Ew.
  - intros [= <- <-]; exact Ew.
  - destruct (worktree_of W (_spec d)); [ discriminate | ].
    intros [= <- <-]; destruct d; reflexivity.
Qed.

(** X1: the spec of a dataset is the value given to the constructor, after
    any series of accesses on any file systems. *)
Theorem pristine_spec_is_constructor_value
    (v : value) (l : list (World * access)) :
  pristine_spec (after l (Dataset_init v)) = v.
Proof.
  unfold pristine_spec.
  apply (@preserved_after (fun d => _spec d = v) l (Dataset_init v));
    auto using worktree_keeps_spec, repo_keeps_spec, path_keeps_spec.
Qed.

(** X2: once [path] has returned a path, every later access of [path]
    returns that path, asks nothing of the outside and leaves the object as
    it is, whatever was read in between and whatever has changed on the file
    system. *)
Theorem path_never_changes (W W' : World) (d : Dataset) (p : Path) (st : St)
    (later : list (World * access)) :
  run (path W) d = (inr p, st) ->
  run (path W') (after later (obj st))
  = (inr p, mkSt (after later (obj st)) []).
Proof.
  intros Hrun. unfold run.
  apply path_cached.
  apply (@preserved_after (fun x => _path x = Some p) later (obj st));
    auto using worktree_keeps_path, repo_keeps_path, path_keeps_path.
  exact (path_returns _ _ Hrun).
Qed.

Lemma path_never_changes_witness :
  run (path W_converted)
    (after [(W_converted, ARepo); (W_later, AWorktree)]
       (mkDataset (VPath p_bare) (Some r_bare) None (Some p_bare)))
  = (inr p_bare,
     mkSt (after [(W_converted, ARepo); (W_later, AWorktree)]
             (mkDataset (VPath p_bare) (Some r_bare) None (Some p_bare)))
          []).
Proof.
  apply (@path_never_changes W_sample W_converted
           (Dataset_init (VPath p_bare)) p_bare
           (mkSt (mkDataset (VPath p_bare) (Some r_bare) None (Some p_bare))
                 [CallWorktree p_bare; CallWorktree p_bare; CallRepo p_bare])
           [(W_converted, ARepo); (W_later, AWorktree)]).
  reflexivity.
Defined.

(** X3: once [worktree] has returned a worktree, every later access of
    [worktree] returns it without a call to the outside, whatever was read
    in between and whatever has changed on the file system. *)
Theorem present_worktree_persists (W W' : World) (d : Dataset) (st : St)
    (later : list (World * access)) (w : Worktree) :
  run (worktree W) d = (inr (Some w), st) ->
  run (worktree W') (after later (obj st))
  = (inr (Some w), mkSt (after later (obj st)) []).
Proof.
  intros Hrun. unfold run.
  assert (Hc : _worktree (after later (obj st)) = Some w).
  { apply (@preserved_after (fun x => _worktree x = Some w) later (obj st));
      auto using worktree_keeps_worktree, repo_keeps_worktree,
        path_keeps_worktree.
    exact (worktree_returns _ _ Hrun). }
  destruct (worktree_eq W' (after later (obj st)) []) as [l' ->].
  rewrite Hc; reflexivity.
Qed.

Lemma present_worktree_persists_witness :
  run (worktree W_broken)
    (after [(W_broken, APath); (W_later, ARepo)]
       (mkDataset (VPath p_ds) None (Some w_ds) None))
  = (inr (Some w_ds),
     mkSt (after [(W_broken, APath); (W_later, ARepo)]
             (mkDataset (VPath p_ds) None (Some w_ds) None)) []).
Proof.
  apply (@present_worktree_persists W_sample W_broken
           (Dataset_init (VPath p_ds))
           (mkSt (mkDataset (VPath p_ds) None (Some w_ds) None)
                 [CallWorktree p_ds])
           [(W_broken, APath); (W_later, ARepo)] w_ds).
  reflexivity.
Defined.

(** X4: a repository that [repo] has returned is returned by every later
    access of [repo] without a call to the outside, also after other
    accesses in between and on a changed file system. *)
Theorem present_repo_persists (W W' : World) (d : Dataset) (st : St)
    (later : list (World * access)) (r : Repo) :
  run (repo W) d = (inr (Some r), st) ->
  run (repo W') (after later (obj st))
  = (inr (Some r), mkSt (after later (obj st)) []).
Proof.
  intros Hrun. unfold run.
  apply repo_cached.
  apply (@preserved_after (fun x => _repo x = Some r) later (obj st));
    auto using worktree_keeps_repo, repo_keeps_repo, path_keeps_repo.
  destruct (repo_eq W d []) as [l' Heq]; unfold run in Hrun.
  rewrite Heq in Hrun; clear Heq.
  destruct d as [v [r0 |] [w |] p]; cbn in Hrun.
  - injection Hrun as <- <-; reflexivity.
  - injection Hrun as <- <-; reflexivity.
  - injection Hrun as <- <-; reflexivity.
  - destruct (worktree_of W v) as [e | ow]; [ discriminate | ].
    destruct (repo_of W v) as [e | o']; [ discriminate | ].
    injection Hrun as <- <-; reflexivity.
Qed.

Lemma present_repo_persists_witness :
  run (repo W_converted)
    (after [(W_converted, AWorktree); (W_converted, APath)]
       (mkDataset (VPath p_bare) (Some r_bare) None None))
  = (inr (Some r_bare),
     mkSt (after [(W_converted, AWorktree); (W_converted, APath)]
             (mkDataset (VPath p_bare) (Some r_bare) None None)) []).
Proof.
  apply (@present_repo_persists W_sample W_converted
           (Dataset_init (VPath p_bare))
           (mkSt (mkDataset (VPath p_bare) (Some r_bare) None None)
                 [CallWorktree p_bare; CallRepo p_bare])
           [(W_converted, AWorktree); (W_converted, APath)] r_bare).
  reflexivity.
Defined.

(** ** Specs that need no discovery *)

Lemma after_invariant (I : Dataset -> Prop) :
  (forall W a d, I d -> I (snd (observe W a d))) ->
  forall l d, I d -> I (after l d).
Proof.
  intros Hstep l; induction l as [| [W a] l IH]; intros d H; [ exact H | ].
  rewrite after_cons; cbn [fst snd]. apply IH, Hstep, H.
Qed.

Ltac split_caches H :=
  destruct H as ([? | ?] & [? | ?] & [? | ?]); cbn in *; subst.

Lemma worktree_handle_step w W a d :
  _spec d = VWorktree w
  /\ caches_within d (Some (wt_repo w)) (Some w) (Some (wt_path w)) ->
  fst (observe W a d) = (inr (of_worktree_handle w a), [])
  /\ _spec (snd (observe W a d)) = VWorktree w
  /\ caches_within (snd (observe W a d))
       (Some (wt_repo w)) (Some w) (Some (wt_path w)).
Proof.
  intros [Hs Hc]; destruct d as [v r w0 p]; cbn in Hs; subst v.
  unfold caches_within in *; split_caches Hc; destruct a; cbn; auto 7.
Qed.

Lemma repo_handle_step r W a d :
  _spec d = VRepo r
  /\ caches_within d (Some r) None (Some (repo_path r)) ->
  fst (observe W a d) = (inr (of_repo_handle r a), [])
  /\ _spec (snd (observe W a d)) = VRepo r
  /\ caches_within (snd (observe W a d)) (Some r) None (Some (repo_path r)).
Proof.
  intros [Hs Hc]; destruct d as [v r0 w p]; cbn in Hs; subst v.
  unfold caches_within in *; split_caches Hc; destruct a; cbn; auto 7.
Qed.

(** X5: a dataset built from a worktree handle never calls the outside:
    at every access, after any earlier ones and on any file system, [path]
    is the path of the handle, [worktree] the handle itself and [repo] the
    repository of the handle. *)
Theorem worktree_handle_needs_no_discovery
    (w : Worktree) (l : list (World * access)) (W : World) (a : access) :
  fst (observe W a (after l (Dataset_init (VWorktree w))))
  = (inr (of_worktree_handle w a), []).
Proof.
  apply worktree_handle_step.
  apply (after_invariant
           (fun d => _spec d = VWorktree w
                     /\ caches_within d (Some (wt_repo w)) (Some w)
                          (Some (wt_path w)))).
  - intros W0 a0 d H. apply (worktree_handle_step W0 a0 H).
  - unfold caches_within; cbn; auto.
Qed.

(** X6: a dataset built from a repository handle never calls the outside
    and never has a worktree, even where a checkout exists: at every
    access, [path] is the path of the handle, [repo] the handle itself and
    [worktree] is [None]. *)
Theorem repo_handle_needs_no_discovery
    (r : Repo) (l : list (World * access)) (W : World) (a : access) :
  fst (observe W a (after l (Dataset_init (VRepo r))))
  = (inr (of_repo_handle r a), []).
Proof.
  apply repo_handle_step.
  apply (after_invariant
           (fun d => _spec d = VRepo r
                     /\ caches_within d (Some r) None
                          (Some (repo_path r)))).
  - intros W0 a0 d H. apply (repo_handle_step W0 a0 H).
  - unfold caches_within; cbn; auto.
Qed.

(** X7: a dataset built from [None] never has a repository or a worktree:
    at every access, after any earlier ones and on any file system, [repo]
    and [worktree] return [None] and ask nothing of the outside. *)
Theorem absent_spec_has_no_handles (l : list (World * access)) (W : World) :
  fst (observe W ARepo (after l (Dataset_init VNone)))
  = (inr (RRepo None), [])
  /\ fst (observe W AWorktree (after l (Dataset_init VNone)))
     = (inr (RWorktree None), []).
Proof.
  assert (H : exists p, after l (Dataset_init VNone)
                        = mkDataset VNone None None p).
  { apply (after_invariant
             (fun d => exists p, d = mkDataset VNone None None p)).
    - intros W0 a0 d [p ->]. destruct a0, p; eexists; reflexivity.
    - exists None; reflexivity. }
  destruct H as [p ->]. split; reflexivity.
Qed.

(** ** Resolution of a path or text spec on one file system *)

(** X8: where [Worktree(p)] succeeds for the path [p] of the spec, a fresh
    dataset resolves with that one probe: [worktree] is the worktree found,
    [repo] its repository and [path] its path; [Repo(p)] is not called. *)
Theorem checkout_resolution (W : World) (v : value) (p : Path) (w : Worktree) :
  spec_path v = Some p ->
  Worktree_new W p = inr w ->
  run (worktree W) (Dataset_init v)
  = (inr (Some w), mkSt (mkDataset v None (Some w) None) [CallWorktree p])
  /\ run (repo W) (Dataset_init v)
     = (inr (Some (wt_repo w)),
        mkSt (mkDataset v (Some (wt_repo w)) (Some w) None) [CallWorktree p])
  /\ run (path W) (Dataset_init v)
     = (inr (wt_path w),
        mkSt (mkDataset v None (Some w) (Some (wt_path w))) [CallWorktree p]).
Proof.
  intros Hp Hw.
  destruct v; try discriminate; injection Hp as <-;
    unfold_py; cbn; rewrite Hw; cbn; repeat split.
Qed.

Lemma checkout_resolution_witness :
  run (worktree W_sample) (Dataset_init (VStr "/data/ds/"))
  = (inr (Some w_ds),
     mkSt (mkDataset (VStr "/data/ds/") None (Some w_ds) None)
          [CallWorktree p_ds])
  /\ run (repo W_sample) (Dataset_init (VStr "/data/ds/"))
     = (inr (Some (wt_repo w_ds)),
        mkSt (mkDataset (VStr "/data/ds/") (Some (wt_repo w_ds)) (Some w_ds) None)
             [CallWorktree p_ds])
  /\ run (path W_sample) (Dataset_init (VStr "/data/ds/"))
     = (inr (wt_path w_ds),
        mkSt (mkDataset (VStr "/data/ds/") None (Some w_ds)
                (Some (wt_path w_ds)))
             [CallWorktree p_ds]).
Proof.
  apply (@checkout_resolution W_sample (VStr "/data/ds/") p_ds w_ds);
    reflexivity.
Defined.

(** X9: where [Worktree(p)] says there is no worktree and [Repo(p)]
    succeeds (a bare repository), a fresh dataset has no worktree, has that
    repository, and its path is the path of the repository; resolving the
    path probes for the worktree twice before it probes for the
    repository. *)
Theorem bare_resolution (W : World) (v : value) (p : Path)
    (msg : string) (r : Repo) :
  spec_path v = Some p ->
  Worktree_new W p = inl (ValueError msg) ->
  Repo_new W p = inr r ->
  run (worktree W) (Dataset_init v)
  = (inr None, mkSt (Dataset_init v) [CallWorktree p])
  /\ run (repo W) (Dataset_init v)
     = (inr (Some r),
        mkSt (mkDataset v (Some r) None None) [CallWorktree p; CallRepo p])
  /\ run (path W) (Dataset_init v)
     = (inr (repo_path r),
        mkSt (mkDataset v (Some r) None (Some (repo_path r)))
             [CallWorktree p; CallWorktree p; CallRepo p]).
Proof.
  intros Hp Hw Hr.
  destruct v; try discriminate; injection Hp as <-;
    unfold_py; cbn; repeat (progress (rewrite ?Hw, ?Hr; cbn)); repeat split.
Qed.

Lemma bare_resolution_witness :
  run (worktree W_sample) (Dataset_init (VPath p_bare))
  = (inr None, mkSt (Dataset_init (VPath p_bare)) [CallWorktree p_bare])
  /\ run (repo W_sample) (Dataset_init (VPath p_bare))
     = (inr (Some r_bare),
        mkSt (mkDataset (VPath p_bare) (Some r_bare) None None)
             [CallWorktree p_bare; CallRepo p_bare])
  /\ run (path W_sample) (Dataset_init (VPath p_bare))
     = (inr (repo_path r_bare),
        mkSt (mkDataset (VPath p_bare) (Some r_bare) None
                (Some (repo_path r_bare)))
             [CallWorktree p_bare; CallWorktree p_bare; CallRepo p_bare]).
Proof.
  apply (@bare_resolution W_sample (VPath p_bare) p_bare
           "not a git repository" r_bare); reflexivity.
Defined.

(** X10: where both constructors say there is nothing at the path [p] of
    the spec, a fresh dataset has no worktree and no repository, its path
    is [p] as given, and nothing but the path is cached: each of the three
    accesses leaves both handles unset. *)
Theorem plain_directory_resolution (W : World) (v : value) (p : Path)
    (msg msg' : string) :
  spec_path v = Some p ->
  Worktree_new W p = inl (ValueError msg) ->
  Repo_new W p = inl (ValueError msg') ->
  run (worktree W) (Dataset_init v)
  = (inr None, mkSt (Dataset_init v) [CallWorktree p])
  /\ run (repo W) (Dataset_init v)
     = (inr None, mkSt (Dataset_init v) [CallWorktree p; CallRepo p])
  /\ run (path W) (Dataset_init v)
     = (inr p,
        mkSt (mkDataset v None None (Some p))
             [CallWorktree p; CallWorktree p; CallRepo p]).
Proof.
  intros Hp Hw Hr.
  destruct v; try discriminate; injection Hp as <-;
    unfold_py; cbn; repeat (progress (rewrite ?Hw, ?Hr; cbn)); repeat split.
Qed.

Lemma plain_directory_resolution_witness :
  run (worktree W_sample) (Dataset_init (VStr "new/ds"))
  = (inr None,
     mkSt (Dataset_init (VStr "new/ds")) [CallWorktree (Path_of_str "new/ds")])
  /\ run (repo W_sample) (Dataset_init (VStr "new/ds"))
     = (inr None,
        mkSt (Dataset_init (VStr "new/ds"))
             [CallWorktree (Path_of_str "new/ds");
              CallRepo (Path_of_str "new/ds")])
  /\ run (path W_sample) (Dataset_init (VStr "new/ds"))
     = (inr (Path_of_str "new/ds"),
        mkSt (mkDataset (VStr "new/ds") None None
                (Some (Path_of_str "new/ds")))
             [CallWorktree (Path_of_str "new/ds");
              CallWorktree (Path_of_str "new/ds");
              CallRepo (Path_of_str "new/ds")]).
Proof.
  apply (@plain_directory_resolution W_sample (VStr "new/ds")
           (Path_of_str "new/ds")
           "not a git repository" "not a git repository"); reflexivity.
Defined.

Lemma checkout_step W v p w a d :
  spec_path v = Some p ->
  Worktree_new W p = inr w ->
  _spec d = v /\ (_worktree d = None \/ _worktree d = Some w) ->
  forallb (fun c => negb (is_repo_call c)) (snd (fst (observe W a d))) = true
  /\ _spec (snd (observe W a d)) = v
  /\ (_worktree (snd (observe W a d)) = None
      \/ _worktree (snd (observe W a d)) = Some w).
Proof.
  intros Hp Hw [Hs Hc]; destruct d as [v0 r w0 p0]; cbn in Hs, Hc; subst v0.
  destruct v; try discriminate; injection Hp as <-;
    destruct Hc as [-> | ->], a, r as [r |], p0 as [p0 |];
    unfold_py; cbn; repeat (progress (rewrite ?Hw; cbn)); auto.
Qed.

(** X11: where [Worktree(p)] succeeds for the path [p] of the spec, no
    series of accesses on that file system ever calls [Repo(...)]: the
    repository is taken from the worktree. *)
Theorem checkout_never_probes_for_repo (W : World) (v : value) (p : Path)
    (w : Worktree) (l : list access) (a : access) :
  spec_path v = Some p ->
  Worktree_new W p = inr w ->
  forallb (fun c => negb (is_repo_call c))
    (snd (fst (observe W a (after (map (pair W) l) (Dataset_init v)))))
  = true.
Proof.
  intros Hp Hw.
  apply (@checkout_step W v p w a _ Hp Hw).
  induction l as [| a0 l IH] using rev_ind; [ cbn; auto | ].
  rewrite map_app; cbn [map].
  assert (Happ : forall l1 x d,
             after (l1 ++ [x]) d
             = snd (observe (fst x) (snd x) (after l1 d))).
  { induction l1 as [| y l1 IH1]; intros x d.
    - cbn [app]; rewrite after_cons; reflexivity.
    - cbn [app]; rewrite !after_cons; apply IH1. }
  rewrite Happ; cbn [fst snd].
  apply (@checkout_step W v p w a0 _ Hp Hw IH).
Qed.

Lemma checkout_never_probes_for_repo_witness :
  forallb (fun c => negb (is_repo_call c))
    (snd (fst (observe W_sample ARepo
                 (after (map (pair W_sample) [APath; AWorktree])
                    (Dataset_init (VPath p_ds))))))
  = true.
Proof.
  apply (@checkout_never_probes_for_repo W_sample (VPath p_ds) p_ds w_ds
           [APath; AWorktree] ARepo); reflexivity.
Defined.

(** ** What the properties can raise *)

Ltac from_constructor :=
  left; eexists; first [ left; eassumption | right; eassumption ].

(** X12: absence is never an error of the properties.  Whatever the state
    of the object, an exception that leaves [path], [repo] or [worktree] is
    never a [ValueError]; it is one that a constructor of the repository
    layer raised, or, for [path] on a spec that is none of [str], [Path],
    [Repo], [Worktree] and [None], the [TypeError] of [Path(ps)]. *)
Theorem properties_raise_only_foreign_errors
    (W : World) (a : access) (d : Dataset) (e : exn) (st : St) :
  run (do_access W a) d = (inl e, st) ->
  is_ValueError e = false
  /\ (raised_by_constructor W e
      \/ (a = APath /\ supported (_spec d) = false
          /\ Path_new (_spec d) = inl e)).
Proof.
  unfold raised_by_constructor.
  destruct d as [v r w p0]; revert e st.
  destruct a, p0 as [p0 |], v, r as [r |], w as [w |];
    intros e st; unfold_py; cbn;
    repeat (probe; cbn);
    intros H; inversion H; subst;
    (split; [ reflexivity | first [ from_constructor | right; auto ] ]).
Qed.

Lemma properties_raise_only_foreign_errors_witness :
  is_ValueError (OtherError "PermissionError") = false
  /\ (raised_by_constructor W_broken (OtherError "PermissionError")
      \/ (ARepo = APath /\ supported (_spec (Dataset_init (VStr "x"))) = false
          /\ Path_new (_spec (Dataset_init (VStr "x")))
             = inl (OtherError "PermissionError"))).
Proof.
  apply (@properties_raise_only_foreign_errors W_broken ARepo
           (Dataset_init (VStr "x")) (OtherError "PermissionError")
           (mkSt (Dataset_init (VStr "x")) [CallWorktree (Path_of_str "x")])).
  reflexivity.
Defined.

(** ** Validation, policy by policy *)

Lemma truthy_is_not_False i :
  inst_truthy i = true -> inst_is_False i = false.
Proof. destruct i as [| [|] | s]; cbn; congruence. Qed.

Lemma with_id_is_truthy i :
  inst_ne_with_id i = false -> inst_truthy i = true.
Proof.
  destruct i as [| [|] | s]; cbn; try discriminate.
  destruct (String.eqb s "with-id") eqn:E; [ | discriminate ].
  apply String.eqb_eq in E; subst s; reflexivity.
Qed.

(** The three tests that [__call__] makes of [installed], split into the
    combinations that a value can give. *)
Ltac split_policy i :=
  let Ht := fresh "Ht" in
  let Hf := fresh "Hf" in
  let Hn := fresh "Hn" in
  pose proof (@truthy_is_not_False i) as Ht;
  pose proof (@with_id_is_truthy i) as Hn;
  unfold EnsureDataset_call, call_body; cbn [_installed];
  destruct (inst_truthy i), (inst_is_False i) eqn:Hf, (inst_ne_with_id i);
  try (specialize (Ht eq_refl); discriminate);
  try (specialize (Hn eq_refl); discriminate);
  clear Ht Hn.

(** X13: where both constructors say there is nothing at the path [p] of
    the value, validation under a policy that requires existence fails with
    "not installed", and under any other policy it returns a dataset whose
    path is [p] and whose handles are unset.  The path is resolved with
    three probes, and a policy other than [None] costs the same three
    probes once more; the configuration is never read. *)
Theorem absent_entity_policies (W : World) (v : value) (p : Path)
    (msg msg' : string) (i : installed_t) :
  spec_path v = Some p ->
  Worktree_new W p = inl (ValueError msg) ->
  Repo_new W p = inl (ValueError msg') ->
  EnsureDataset_call W (mkEnsureDataset i) v
  = (if inst_truthy i
     then inl (ConstraintError (SDataset (mkDataset v None None (Some p)))
                 "not installed")
     else inr (mkDataset v None None (Some p)),
     mkSt (mkDataset v None None (Some p))
       ([CallWorktree p; CallWorktree p; CallRepo p]
        ++ (if inst_truthy i || inst_is_False i
            then [CallWorktree p; CallWorktree p; CallRepo p]
            else []))).
Proof.
  intros Hp Hw Hr.
  destruct v; try discriminate; injection Hp as <-;
    split_policy i;
    unfold_py; cbn; repeat (progress (rewrite ?Hw, ?Hr; cbn)); reflexivity.
Qed.

Lemma absent_entity_policies_witness :
  EnsureDataset_call W_sample (mkEnsureDataset (InstStr "with-id"))
    (VPath p_new)
  = (inl (ConstraintError
            (SDataset (mkDataset (VPath p_new) None None (Some p_new)))
            "not installed"),
     mkSt (mkDataset (VPath p_new) None None (Some p_new))
       ([CallWorktree p_new; CallWorktree p_new; CallRepo p_new]
        ++ [CallWorktree p_new; CallWorktree p_new; CallRepo p_new])).
Proof.
  apply (@absent_entity_policies W_sample (VPath p_new) p_new
           "not a git repository" "not a git repository"
           (InstStr "with-id")); reflexivity.
Defined.

(** X14: with [installed] [None] (or the empty text), validation is the
    resolution of [path] and nothing more: it makes the calls of that
    resolution only, returns the object as [path] left it, and turns a
    [ValueError] or [TypeError] into the construction error while any other
    exception passes through. *)
Theorem no_policy_only_resolves_path (W : World) (i : installed_t) (v : value) :
  inst_truthy i = false ->
  inst_is_False i = false ->
  EnsureDataset_call W (mkEnsureDataset i) v
  = match run (path W) (Dataset_init v) with
    | (inr _, st) => (inr (obj st), st)
    | (inl e, st) =>
        (inl (if is_ValueError_or_TypeError e
              then ConstraintErrorCtx (SValue v)
                     "cannot create Dataset from {type}: {__caused_by__}"
                     (type_of v) e
              else Exn e), st)
    end.
Proof.
  intros Ht Hf.
  assert (Hn : inst_ne_with_id i = true).
  { destruct (inst_ne_with_id i) eqn:E; [ reflexivity | ].
    apply with_id_is_truthy in E; congruence. }
  unfold EnsureDataset_call, call_body, run; cbn [_installed].
  rewrite Ht, Hf, Hn. unfold bind, raise_for_ctx, raise, ret, get_self.
  destruct (path W (mkSt (Dataset_init v) [])) as [[e | q] st];
    [ destruct (is_ValueError_or_TypeError e) | ]; reflexivity.
Qed.

Lemma no_policy_only_resolves_path_witness :
  EnsureDataset_call W_broken (mkEnsureDataset (InstStr "")) (VStr "x")
  = match run (path W_broken) (Dataset_init (VStr "x")) with
    | (inr _, st) => (inr (obj st), st)
    | (inl e, st) =>
        (inl (if is_ValueError_or_TypeError e
              then ConstraintErrorCtx (SValue (VStr "x"))
                     "cannot create Dataset from {type}: {__caused_by__}"
                     (type_of (VStr "x")) e
              else Exn e), st)
    end.
Proof.
  apply (@no_policy_only_resolves_path W_broken (InstStr "") (VStr "x"));
    reflexivity.
Defined.

Ltac split_config :=
  try match goal with
      | |- context [existsb ?f (config_source ?W ?h ?s)] =>
          destruct (existsb f (config_source W h s))
      end.

(** X15: what a validation that returns has established.  The dataset
    returned is the object that was built from the value, with its path
    resolved and cached; under a policy that requires existence it holds a
    worktree or a repository, and under [installed=False] it holds
    neither. *)
Theorem validated_dataset (W : World) (i : installed_t) (v : value)
    (d : Dataset) (st : St) :
  EnsureDataset_call W (mkEnsureDataset i) v = (inr d, st) ->
  obj st = d /\ _spec d = v /\ _path d <> None
  /\ (inst_truthy i = true -> truthy (_worktree d) || truthy (_repo d) = true)
  /\ (inst_is_False i = true -> _worktree d = None /\ _repo d = None).
Proof.
  revert d st.
  destruct v; split_policy i; intros d st;
    unfold_py; cbn; repeat (probe; cbn); split_config;
    intros H; inversion H; subst; cbn;
    repeat split; intros; try discriminate; reflexivity.
Qed.

Lemma validated_dataset_witness :
  obj (mkSt (mkDataset (VPath p_bare) (Some r_bare) None (Some p_bare))
         [CallWorktree p_bare; CallWorktree p_bare; CallRepo p_bare;
          CallWorktree p_bare])
  = mkDataset (VPath p_bare) (Some r_bare) None (Some p_bare)
  /\ _spec (mkDataset (VPath p_bare) (Some r_bare) None (Some p_bare))
     = VPath p_bare
  /\ _path (mkDataset (VPath p_bare) (Some r_bare) None (Some p_bare)) <> None
  /\ (inst_truthy (InstBool true) = true ->
      truthy (_worktree (mkDataset (VPath p_bare) (Some r_bare) None
                           (Some p_bare)))
      || truthy (_repo (mkDataset (VPath p_bare) (Some r_bare) None
                          (Some p_bare))) = true)
  /\ (inst_is_False (InstBool true) = true ->
      _worktree (mkDataset (VPath p_bare) (Some r_bare) None (Some p_bare))
      = None
      /\ _repo (mkDataset (VPath p_bare) (Some r_bare) None (Some p_bare))
         = None).
Proof.
  apply (@validated_dataset W_sample (InstBool true) (VPath p_bare)).
  reflexivity.
Defined.



(** X17: the configuration is read at most once, as the last call of a
    validation, and not at all unless [installed] is ['with-id']. *)
Theorem config_is_read_last_and_only_for_with_id
    (W : World) (i : installed_t) (v : value) :
  forallb (fun c => negb (is_config_call c))
    (removelast (log (snd (EnsureDataset_call W (mkEnsureDataset i) v))))
  = true
  /\ (inst_ne_with_id i = true ->
      forallb (fun c => negb (is_config_call c))
        (log (snd (EnsureDataset_call W (mkEnsureDataset i) v)))
      = true).
Proof.
  destruct v; split_policy i;
    unfold_py; cbn; repeat (probe; cbn; try discriminate); split_config; cbn;
    split; intros; try discriminate; reflexivity.
Qed.

Lemma config_is_read_last_and_only_for_with_id_witness :
  forallb (fun c => negb (is_config_call c))
    (log (snd (EnsureDataset_call W_sample (mkEnsureDataset (InstBool true))
                 (VPath p_ds))))
  = true.
Proof.
  apply (proj2 (@config_is_read_last_and_only_for_with_id W_sample
                  (InstBool true) (VPath p_ds))).
  reflexivity.
Defined.

(** X18: a text for [installed] other than ['with-id'] is taken for its
    truth value: the empty text is the same policy as [None], and any other
    text the same policy as [True]. *)
Theorem text_policy_is_its_truth_value (W : World) (s : string) (v : value) :
  String.eqb s "with-id" = false ->
  EnsureDataset_call W (mkEnsureDataset (InstStr s)) v
  = EnsureDataset_call W
      (mkEnsureDataset (if String.eqb s "" then InstNone else InstBool true)) v.
Proof.
  intros H.
  unfold EnsureDataset_call, call_body;
    cbn [_installed inst_truthy inst_is_False inst_ne_with_id].
  rewrite H. destruct (String.eqb s ""); reflexivity.
Qed.

Lemma text_policy_is_its_truth_value_witness :
  EnsureDataset_call W_sample (mkEnsureDataset (InstStr "yes")) (VPath p_new)
  = EnsureDataset_call W_sample
      (mkEnsureDataset (if String.eqb "yes" "" then InstNone else InstBool true))
      (VPath p_new).
Proof.
  apply (@text_policy_is_its_truth_value W_sample "yes" (VPath p_new)).
  reflexivity.
Defined.

(** X19: ['with-id'] is at least as strict as [True]: a validation that
    fails under [installed=True] fails under ['with-id'] with the same
    error, after the same calls and with the object in the same state. *)
Theorem with_id_fails_where_True_fails (W : World) (v : value)
    (e : raised) (st : St) :
  EnsureDataset_call W (mkEnsureDataset (InstBool true)) v = (inl e, st) ->
  EnsureDataset_call W (mkEnsureDataset (InstStr "with-id")) v = (inl e, st).
Proof.
  revert e st.
  destruct v; intros e st; unfold_py; cbn;
    repeat (probe; cbn; try discriminate);
    intros H; inversion H; subst; reflexivity.
Qed.

Lemma with_id_fails_where_True_fails_witness :
  EnsureDataset_call W_sample (mkEnsureDataset (InstStr "with-id")) VNone
  = (inl (ConstraintError
            (SDataset (mkDataset VNone None None (Some (cwd W_sample))))
            "not installed"),
     mkSt (mkDataset VNone None None (Some (cwd W_sample))) [CallCwd]).
Proof.
  apply (@with_id_fails_where_True_fails W_sample VNone).
  reflexivity.
Defined.

(** X20: the synopsis says what validation enforces.  Where both
    constructors say there is nothing at the path of the value, validation
    fails exactly under the policies whose synopsis asks for an existing
    dataset. *)
Theorem synopsis_matches_validation_of_absent (W : World) (v : value)
    (p : Path) (msg msg' : string) (i : installed_t) :
  spec_path v = Some p ->
  Worktree_new W p = inl (ValueError msg) ->
  Repo_new W p = inl (ValueError msg') ->
  (exists e st, EnsureDataset_call W (mkEnsureDataset i) v = (inl e, st))
  <-> input_synopsis (mkEnsureDataset i) = "(path to) an existing dataset".
Proof.
  intros Hp Hw Hr. unfold input_synopsis; cbn [_installed].
  destruct v; try discriminate; injection Hp as <-;
    split_policy i; unfold_py; cbn;
    repeat (progress (rewrite ?Hw, ?Hr; cbn));
    (split;
     [ intros (e & st & H); first [ discriminate | reflexivity ]
     | intros H; first [ discriminate | eauto ] ]).
Qed.

Lemma synopsis_matches_validation_of_absent_witness :
  (exists e st,
      EnsureDataset_call W_sample (mkEnsureDataset (InstBool true))
        (VStr "new/ds") = (inl e, st))
  <-> input_synopsis (mkEnsureDataset (InstBool true))
      = "(path to) an existing dataset".
Proof.
  apply (@synopsis_matches_validation_of_absent W_sample (VStr "new/ds")
           (Path_of_str "new/ds") "not a git repository"
           "not a git repository" (InstBool true)); reflexivity.
Defined.

(** ** Accesses on one file system *)

Lemma after_snoc l x d :
  after (l ++ [x]) d = snd (observe (fst x) (snd x) (after l d)).
Proof.
  revert d; induction l as [| y l IH]; intros d.
  - cbn [app]; rewrite after_cons; reflexivity.
  - cbn [app]; rewrite !after_cons; apply IH.
Qed.

Ltac same_handles :=
  repeat match goal with
         | H : inr _ = inr _ |- _ => inversion H; subst; clear H
         end.

Lemma resolution_step W v a d :
  resolved_on W v d ->
  fst (fst (observe W a d)) = resolution W v a
  /\ resolved_on W v (snd (observe W a d)).
Proof.
  intros (Hs & [Hw Hr] & Hq).
  destruct d as [v0 r w q]; cbn in Hs, Hw, Hr, Hq; subst v0.
  assert (Hw' : match w with
                | Some w => worktree_of W v = inr (Some w)
                | None => True
                end) by (destruct w; auto).
  assert (Hr' : match r with
                | Some r => repo_of W v = inr (Some r)
                | None => True
                end) by (destruct r; auto).
  assert (Hq' : match q with
                | Some q => path_of W v = inr q
                | None => True
                end) by (destruct q; auto).
  clear Hw Hr Hq.
  unfold resolved_on, coherent, resolution, path_of, repo_of, worktree_of,
    found in *.
  destruct v, a, r as [r |], w as [w |], q as [q |];
    unfold_py; cbn in *;
    repeat (probe; cbn in *; try discriminate);
    try discriminate; same_handles;
    (split; [ reflexivity
            | repeat split; cbn; intros; try discriminate; congruence ]).
Qed.

Lemma resolved_on_init W v : resolved_on W v (Dataset_init v).
Proof.
  split; [ reflexivity | split; [ apply init_coherent | cbn; discriminate ] ].
Qed.

Lemma resolved_on_after W v (l : list access) :
  resolved_on W v (after (map (pair W) l) (Dataset_init v)).
Proof.
  induction l as [| a l IH] using rev_ind; [ apply resolved_on_init | ].
  rewrite map_app; cbn [map]; rewrite after_snoc; cbn [fst snd].
  apply resolution_step, IH.
Qed.

(** X21: on a file system that stays as it is, what a property returns or
    raises does not depend on what was read before: after any series of
    accesses, [path], [repo] and [worktree] give what they give on a fresh
    object built from the same value. *)
Theorem results_do_not_depend_on_history
    (W : World) (v : value) (l : list access) (a : access) :
  fst (fst (observe W a (after (map (pair W) l) (Dataset_init v))))
  = fst (fst (observe W a (Dataset_init v))).
Proof.
  transitivity (resolution W v a).
  - apply resolution_step, resolved_on_after.
  - symmetry; apply resolution_step, resolved_on_init.
Qed.

(** ** A dataset that is created after the first access *)

(** X22: when nothing is at the path [p] of the value while [path] is first
    read, and a checkout is created there afterwards, [worktree] and [repo]
    find the checkout at their next access, while [path] stays the path of
    the value as given and not the path of the worktree. *)
Theorem created_later_is_found_but_path_stays (W W' : World) (v : value)
    (p : Path) (msg msg' : string) (w : Worktree) :
  spec_path v = Some p ->
  Worktree_new W p = inl (ValueError msg) ->
  Repo_new W p = inl (ValueError msg') ->
  Worktree_new W' p = inr w ->
  fst (observe W' AWorktree (after [(W, APath)] (Dataset_init v)))
  = (inr (RWorktree (Some w)), [CallWorktree p])
  /\ fst (observe W' ARepo (after [(W, APath)] (Dataset_init v)))
     = (inr (RRepo (Some (wt_repo w))), [CallWorktree p])
  /\ fst (observe W' APath
            (after [(W', AWorktree); (W', ARepo)]
               (after [(W, APath)] (Dataset_init v))))
     = (inr (RPath p), []).
Proof.
  intros Hp Hw Hr Hw'.
  destruct v; try discriminate; injection Hp as <-;
    unfold after; cbn; unfold_py; cbn;
    repeat (progress (rewrite ?Hw, ?Hr, ?Hw'; cbn)); repeat split.
Qed.

Lemma created_later_is_found_but_path_stays_witness :
  fst (observe W_created AWorktree
         (after [(W_sample, APath)] (Dataset_init (VStr "/data/new"))))
  = (inr (RWorktree (Some w_new)), [CallWorktree p_new])
  /\ fst (observe W_created ARepo
            (after [(W_sample, APath)] (Dataset_init (VStr "/data/new"))))
     = (inr (RRepo (Some (wt_repo w_new))), [CallWorktree p_new])
  /\ fst (observe W_created APath
            (after [(W_created, AWorktree); (W_created, ARepo)]
               (after [(W_sample, APath)] (Dataset_init (VStr "/data/new")))))
     = (inr (RPath p_new), []).
Proof.
  apply (@created_later_is_found_but_path_stays W_sample W_created
           (VStr "/data/new") p_new "not a git repository"
           "not a git repository" w_new); reflexivity.
Defined.

(** ** Absence is not cached *)

Lemma nothing_there_step W v p msg msg' a d :
  spec_path v = Some p ->
  Worktree_new W p = inl (ValueError msg) ->
  Repo_new W p = inl (ValueError msg') ->
  (exists q, d = mkDataset v None None q) ->
  exists q, snd (observe W a d) = mkDataset v None None q.
Proof.
  intros Hp Hw Hr [q ->].
  destruct v; try discriminate; injection Hp as <-;
    destruct a, q as [q |]; unfold_py; cbn;
    repeat (progress (rewrite ?Hw, ?Hr; cbn)); eexists; reflexivity.
Qed.

(** X23: where both constructors say there is nothing at the path [p] of
    the value, that answer is never kept: after any series of accesses on
    that file system, [worktree] calls [Worktree(p)] again, and [repo]
    calls [Worktree(p)] and then [Repo(p)] again, and both return [None]. *)
Theorem absence_is_probed_at_every_access (W : World) (v : value) (p : Path)
    (msg msg' : string) (l : list access) :
  spec_path v = Some p ->
  Worktree_new W p = inl (ValueError msg) ->
  Repo_new W p = inl (ValueError msg') ->
  fst (observe W AWorktree (after (map (pair W) l) (Dataset_init v)))
  = (inr (RWorktree None), [CallWorktree p])
  /\ fst (observe W ARepo (after (map (pair W) l) (Dataset_init v)))
     = (inr (RRepo None), [CallWorktree p; CallRepo p]).
Proof.
  intros Hp Hw Hr.
  assert (H : exists q, after (map (pair W) l) (Dataset_init v)
                        = mkDataset v None None q).
  { induction l as [| a l IH] using rev_ind; [ exists None; reflexivity | ].
    rewrite map_app; cbn [map]; rewrite after_snoc; cbn [fst snd].
    apply (@nothing_there_step W v p msg msg' a _ Hp Hw Hr IH). }
  destruct H as [q ->].
  destruct v; try discriminate; injection Hp as <-;
    unfold_py; cbn; repeat (progress (rewrite ?Hw, ?Hr; cbn)); split;
    reflexivity.
Qed.

Lemma absence_is_probed_at_every_access_witness :
  fst (observe W_sample AWorktree
         (after (map (pair W_sample) [APath; ARepo; AWorktree])
            (Dataset_init (VPath p_new))))
  = (inr (RWorktree None), [CallWorktree p_new])
  /\ fst (observe W_sample ARepo
            (after (map (pair W_sample) [APath; ARepo; AWorktree])
               (Dataset_init (VPath p_new))))
     = (inr (RRepo None), [CallWorktree p_new; CallRepo p_new]).
Proof.
  apply (@absence_is_probed_at_every_access W_sample (VPath p_new) p_new
           "not a git repository" "not a git repository"
           [APath; ARepo; AWorktree]); reflexivity.
Defined.
